(** * The EAGLE speculative decoding worker ([eagle_worker.py])

    A shallow embedding of the host-side logic of [EAGLEWorker]: the draft
    cache layout, the KV-slot bookkeeping of draft preprocessing, the
    hot-token remap, NaN detection, attention-backend selection, the
    grammar-mask handling of [verify], log-probability attachment and the
    backup/restore discipline of [forward_draft_extend_after_decode].

    Integer tensors are lists of [Z] holding int64 values (the worker
    declares [extend_lens] and [num_new_pages_per_topk] as [torch.int64]);
    every elementwise operation wraps around at 64 bits.  Python exceptions
    are values of [Exn]; a routine that may raise returns a [Result]. *)

From Stdlib Require Import ZArith Lia List String.
From Stdlib Require Import Floats.SpecFloat.
From stdpp Require Import base list strings.

Local Open Scope Z_scope.

(** ** Exceptions and results *)

Inductive Exn : Type :=
| ValueError (msg : string)
| RuntimeError (msg : string)
| AssertionError
| IndexError
| TypeError
| AttributeError
| UnboundLocalError.

Definition Result (A : Type) : Type := Exn + A.

Definition Ok {A : Type} (a : A) : Result A := inr a.
Definition Raise {A : Type} (e : Exn) : Result A := inl e.

Definition is_ok {A : Type} (r : Result A) : bool :=
  match r with inr _ => true | inl _ => false end.

(** ** Integer tensors *)

Module Tensor.

(** Two's-complement reduction of an integer to the int64 range. *)
Definition wrap64 (z : Z) : Z := (z + 2 ^ 63) mod 2 ^ 64 - 2 ^ 63.

Definition in_int64 (z : Z) : Prop := - 2 ^ 63 <= z < 2 ^ 63.

(** [t + s], [t - s], [t * s], [t // s] and [t % s] for a tensor [t] and
    a Python integer [s].  Floor division and the sign-of-divisor
    remainder of torch agree with [Z.div] and [Z.modulo] for a non-zero
    divisor (a zero divisor raises in torch; the callers below divide by
    the page size only). *)
Definition add_s (t : list Z) (s : Z) : list Z := map (fun x => wrap64 (x + s)) t.
Definition sub_s (t : list Z) (s : Z) : list Z := map (fun x => wrap64 (x - s)) t.
Definition mul_s (t : list Z) (s : Z) : list Z := map (fun x => wrap64 (x * s)) t.
Definition floordiv_s (t : list Z) (s : Z) : list Z := map (fun x => wrap64 (x / s)) t.
Definition mod_s (t : list Z) (s : Z) : list Z := map (fun x => wrap64 (x mod s)) t.

(** Elementwise [a + b] and [a - b] of two tensors of one shape. *)
Definition add (a b : list Z) : list Z := zip_with (fun x y => wrap64 (x + y)) a b.
Definition sub (a b : list Z) : list Z := zip_with (fun x y => wrap64 (x - y)) a b.

(** [torch.sum(t).item()]. *)
Definition sum (t : list Z) : Z := wrap64 (fold_right Z.add 0 t).

(** [t.repeat_interleave(k, dim=0)]. *)
Definition repeat_interleave (t : list Z) (k : Z) : list Z :=
  flat_map (fun x => replicate (Z.to_nat k) x) t.

(** [t[i]] for a Python or tensor index [i]: a negative index counts from
    the end, an index outside [-len, len) raises [IndexError]. *)
Definition index {A : Type} (t : list A) (i : Z) : Result A :=
  let n := Z.of_nat (length t) in
  if (0 <=? i) && (i <? n) then
    match t !! Z.to_nat i with Some x => Ok x | None => Raise IndexError end
  else if (- n <=? i) && (i <? 0) then
    match t !! Z.to_nat (i + n) with Some x => Ok x | None => Raise IndexError end
  else Raise IndexError.

(** [t[idx]] for an index tensor [idx] (advanced indexing along dim 0). *)
Fixpoint gather {A : Type} (t : list A) (idx : list Z) : Result (list A) :=
  match idx with
  | [] => Ok []
  | i :: rest =>
      match index t i with
      | inl e => Raise e
      | inr x =>
          match gather t rest with
          | inl e => Raise e
          | inr xs => Ok (x :: xs)
          end
      end
  end.

End Tensor.

(** ** Draft cache layout *)

Module DraftCacheLayout.
Import Tensor.

Section Layout.

(** [get_last_loc] of [schedule_batch]: the slot of the last prefix
    token of every request.  It is declared outside this file and
    enters the layout only as the value handed on to the allocator. *)
Variable get_last_loc : list (list Z) -> list Z -> list Z -> list Z.

Record TopK1Layout : Type := {
  k1_prefix_lens : list Z;
  k1_seq_lens : list Z;
  k1_last_loc : list Z;
}.

Definition get_last_loc_large_page_size_top_k_1
    (req_to_token : list (list Z)) (req_pool_indices seq_lens : list Z)
    (speculative_num_steps : Z) : TopK1Layout :=
  let prefix_lens := seq_lens in
  let seq_lens := add_s prefix_lens speculative_num_steps in
  let last_loc := get_last_loc req_to_token req_pool_indices prefix_lens in
  {| k1_prefix_lens := prefix_lens;
     k1_seq_lens := seq_lens;
     k1_last_loc := last_loc |}.

Record LargeTopKLayout : Type := {
  prefix_lens : list Z;
  new_seq_lens : list Z;
  last_loc : list Z;
  num_new_pages_per_topk : list Z;
  extend_lens : list Z;
}.

Definition last_page_lens (prefix_lens : list Z) (page_size : Z) : list Z :=
  mod_s prefix_lens page_size.

Definition get_last_loc_large_page_size_large_top_k
    (req_to_token : list (list Z)) (req_pool_indices seq_lens : list Z)
    (speculative_num_steps topk page_size : Z) : LargeTopKLayout :=
  let prefix_lens := seq_lens in
  let last_page_lens := last_page_lens prefix_lens page_size in
  let num_new_pages_per_topk :=
    floordiv_s
      (sub_s (add_s (add_s last_page_lens speculative_num_steps) page_size) 1)
      page_size in
  let seq_lens :=
    add (mul_s (floordiv_s prefix_lens page_size) page_size)
        (mul_s num_new_pages_per_topk (page_size * topk)) in
  let extend_lens := sub seq_lens prefix_lens in
  let last_loc := get_last_loc req_to_token req_pool_indices prefix_lens in
  {| prefix_lens := prefix_lens;
     new_seq_lens := seq_lens;
     last_loc := last_loc;
     num_new_pages_per_topk := num_new_pages_per_topk;
     extend_lens := extend_lens |}.

End Layout.

(** The mathematical ceiling of [a / b], for [0 < b]. *)
Definition ceil_div (a b : Z) : Z := - ((- a) / b).

(** The layout the specification prescribes for one request. *)
Definition spec_num_new_pages (prefix S P : Z) : Z := ceil_div (prefix mod P + S) P.
Definition spec_new_seq_len (prefix S K P : Z) : Z :=
  prefix / P * P + spec_num_new_pages prefix S P * P * K.
Definition spec_extend_len (prefix S K P : Z) : Z :=
  spec_new_seq_len prefix S K P - prefix.

(** A prefix length for which the layout stays within int64. *)
Definition layout_in_range (S K P prefix : Z) : Prop :=
  0 <= prefix /\ (prefix + S + P) * (K + 1) < 2 ^ 63.

(** Modelled from the spec: [get_last_loc] is declared outside this file;
    [last_loc[i]] is the slot of request [i] at position
    [prefix_lens[i] - 1].  A request without such a slot gets [-1]. *)
Definition get_last_loc (req_to_token : list (list Z))
    (req_pool_indices prefix_lens : list Z) : list Z :=
  zip_with
    (fun r p =>
       match req_to_token !! Z.to_nat r with
       | Some row =>
           if 0 <? p then default (-1) (row !! Z.to_nat (p - 1)) else -1
       | None => -1
       end)
    req_pool_indices prefix_lens.

End DraftCacheLayout.

(** ** A state-and-exception monad

    Stateful routines thread a state [S]; a raised exception keeps the
    state reached at the point of the [raise]. *)

Definition M (S A : Type) : Type := S -> Result A * S.

Definition ret {S A : Type} (a : A) : M S A := fun s => (Ok a, s).

Definition raise {S A : Type} (e : Exn) : M S A := fun s => (Raise e, s).

Definition bind {S A B : Type} (m : M S A) (k : A -> M S B) : M S B :=
  fun s =>
    match m s with
    | (inl e, s') => (Raise e, s')
    | (inr a, s') => k a s'
    end.

Definition get {S : Type} : M S S := fun s => (Ok s, s).
Definition put {S : Type} (s : S) : M S unit := fun _ => (Ok tt, s).
Definition modify {S : Type} (f : S -> S) : M S unit := fun s => (Ok tt, f s).
Definition lift {S A : Type} (r : Result A) : M S A := fun s => (r, s).

(** [assert c]. *)
Definition assert {S : Type} (c : bool) : M S unit :=
  if c then ret tt else raise AssertionError.

Notation "'do' x <- m ; k" := (bind m (fun x => k))
  (at level 10, x name, m at level 99, k at level 200).
Notation "'do' ' p <- m ; k" := (bind m (fun x => match x with p => k end))
  (at level 10, p pattern, m at level 99, k at level 200).
Notation "m ;; k" := (bind m (fun _ => k))
  (at level 100, k at level 200, right associativity).

(** ** The KV-slot allocator *)

Module KVPool.

(** Modelled from the spec: the token-to-KV-pool allocator is declared
    outside this file.  It hands out slot ids, either [n] at a time or as
    a paged extend, reports exhaustion by returning nothing (the state is
    then unchanged), and supports [backup_state()] returning an opaque
    token and [restore_state(token)]. *)
Record Allocator : Type := {
  astate : Type;
  atoken : Type;
  backup_state : astate -> atoken;
  restore_state : atoken -> astate -> astate;
  alloc : Z -> astate -> option (list Z * astate);
  alloc_extend :
    list Z -> list Z -> list Z -> Z -> astate -> option (list Z * astate);
}.

(** Modelled from the spec: the allocator's contract.  The state after
    [restore_state(token)] equals the state at [backup_state()], and an
    allocation of [n] slots delivers [n] slot ids. *)
Record Lawful (A : Allocator) : Prop := {
  restore_backup :
    forall s s' : astate A, restore_state A (backup_state A s) s' = s;
  alloc_length :
    forall n s slots s',
      alloc A n s = Some (slots, s') -> Z.of_nat (length slots) = n;
  alloc_extend_length :
    forall p q l n s slots s',
      alloc_extend A p q l n s = Some (slots, s') ->
      Z.of_nat (length slots) = n;
}.

(** The allocator calls a routine makes, in program order. *)
Inductive AllocCall : Type :=
| CallAllocTokenSlots (num_tokens : Z) (backup_state : bool)
| CallAllocPagedTokenSlotsExtend
    (prefix_lens seq_lens last_loc : list Z) (extend_num_tokens : Z)
    (backup_state : bool)
| CallRestoreState.

Definition is_alloc (c : AllocCall) : bool :=
  match c with
  | CallRestoreState => false
  | _ => true
  end.

Definition is_alloc_without_backup (c : AllocCall) : bool :=
  match c with
  | CallAllocTokenSlots _ b => negb b
  | CallAllocPagedTokenSlotsExtend _ _ _ _ b => negb b
  | CallRestoreState => false
  end.

Section Calls.
Variable A : Allocator.

(** The allocator together with the record of the calls made on it. *)
Record Pool : Type := {
  pool_state : astate A;
  pool_calls : list AllocCall;
}.

Definition record_call (c : AllocCall) : M Pool unit :=
  modify (fun p => {| pool_state := pool_state p;
                      pool_calls := pool_calls p ++ [c] |}).

Definition set_pool_state (s : astate A) : M Pool unit :=
  modify (fun p => {| pool_state := s; pool_calls := pool_calls p |}).

(** Modelled from the spec: [ScheduleBatch.alloc_token_slots(n,
    backup_state) -> (slots, token)].  The token is taken before the
    slots are; exhaustion raises. *)
Definition alloc_token_slots (num_tokens : Z) (backup : bool)
  : M Pool (list Z * option (atoken A)) :=
  record_call (CallAllocTokenSlots num_tokens backup) ;;
  do p <- get ;
  let state := if backup then Some (backup_state A (pool_state p)) else None in
  match alloc A num_tokens (pool_state p) with
  | None => raise (RuntimeError "Out of memory. Try to lower your batch size.")
  | Some (out_cache_loc, s') =>
      set_pool_state s' ;;
      ret (out_cache_loc, state)
  end.

(** Modelled from the spec:
    [ScheduleBatch.alloc_paged_token_slots_extend(prefix_lens, seq_lens,
    last_loc, n, backup_state)]. *)
Definition alloc_paged_token_slots_extend
    (prefix_lens seq_lens last_loc : list Z) (extend_num_tokens : Z)
    (backup : bool) : M Pool (list Z * option (atoken A)) :=
  record_call (CallAllocPagedTokenSlotsExtend
                 prefix_lens seq_lens last_loc extend_num_tokens backup) ;;
  do p <- get ;
  let state := if backup then Some (backup_state A (pool_state p)) else None in
  match alloc_extend A prefix_lens seq_lens last_loc extend_num_tokens
          (pool_state p) with
  | None => raise (RuntimeError "Prefill out of memory. Try to lower your batch size.")
  | Some (out_cache_loc, s') =>
      set_pool_state s' ;;
      ret (out_cache_loc, state)
  end.

Definition restore (token : atoken A) : M Pool unit :=
  record_call CallRestoreState ;;
  do p <- get ;
  set_pool_state (restore_state A token (pool_state p)).

End Calls.

Arguments pool_state {A} _.
Arguments pool_calls {A} _.

(** The allocator of a page-size-1 pool: a free list.  [alloc n] takes the
    first [n] free slots; [backup_state] returns the free list itself and
    [restore_state] puts it back. *)
Definition free_list_alloc (n : Z) (free : list Z) : option (list Z * list Z) :=
  if (0 <=? n) && (n <=? Z.of_nat (length free))
  then Some (take (Z.to_nat n) free, drop (Z.to_nat n) free)
  else None.

Definition FreeList : Allocator := {|
  astate := list Z;
  atoken := list Z;
  backup_state := fun free => free;
  restore_state := fun token _ => token;
  alloc := free_list_alloc;
  alloc_extend := fun _ _ _ n free => free_list_alloc n free;
|}.

End KVPool.

(** ** Draft preprocessing: [_draft_preprocess_decode] *)

Module DraftPreprocess.
Import Tensor KVPool.

(** The worker fields the routine reads and writes.  [w_extend_lens] and
    [w_num_new_pages_per_topk] start as dummy tensors and are overwritten
    by the paged top-k layout. *)
Record Worker : Type := {
  page_size : Z;
  topk : Z;
  speculative_num_steps : Z;
  w_num_new_pages_per_topk : list Z;
  w_extend_lens : list Z;
}.

Record Batch : Type := {
  reqs : list Z;
  req_pool_indices : list Z;
  seq_lens : list Z;
  req_to_token : list (list Z);
  out_cache_loc : list Z;
  seq_lens_sum : Z;
  return_hidden_states : bool;
  verified_id : list Z;
  positions : list Z;
  penalizer_is_required : bool;
  penalizer_cumulated : list (list Z);
}.

Definition batch_size (b : Batch) : Z := Z.of_nat (length (reqs b)).

(** The arguments of the [assign_draft_cache_locs] kernel launch. *)
Record AssignArgs : Type := {
  a_req_pool_indices : list Z;
  a_req_to_token : list (list Z);
  a_seq_lens : list Z;
  a_extend_lens : list Z;
  a_num_new_pages_per_topk : list Z;
  a_out_cache_loc : list Z;
  a_pool_len : Z;
  a_topk : Z;
  a_speculative_num_steps : Z;
  a_page_size : Z;
  a_bs_upper : Z;
  a_iter_upper : Z;
}.

(** [l[:n]] *)
Definition slice_to {A : Type} (l : list A) (n : Z) : list A :=
  if 0 <=? n then take (Z.to_nat n) l
  else take (length l - Z.to_nat (- n))%nat l.

Section Preprocess.
Variable A : Allocator.

(** Declared outside this file: [get_last_loc], [next_power_of_2] and
    the device kernel [assign_draft_cache_locs], which is launched on a
    grid of [num_seqs] programs and writes into the request-to-token
    table and into the [out_cache_loc] buffer it is handed. *)
Variable get_last_loc : list (list Z) -> list Z -> list Z -> list Z.
Variable next_power_of_2 : Z -> Z.
Variable assign_draft_cache_locs : Z -> AssignArgs -> list (list Z) * list Z.

Definition cumulate_output_tokens (b : Batch) (tokens : list Z) : Batch :=
  {| reqs := reqs b; req_pool_indices := req_pool_indices b;
     seq_lens := seq_lens b; req_to_token := req_to_token b;
     out_cache_loc := out_cache_loc b; seq_lens_sum := seq_lens_sum b;
     return_hidden_states := return_hidden_states b;
     verified_id := verified_id b; positions := positions b;
     penalizer_is_required := penalizer_is_required b;
     penalizer_cumulated := penalizer_cumulated b ++ [tokens] |}.

Definition _draft_preprocess_decode (self : Worker) (batch : Batch)
  : M (Pool A) (Worker * Batch) :=
  (* Parse args *)
  let num_seqs := batch_size batch in
  (* Accumulate penalty *)
  let batch :=
    if penalizer_is_required batch
    then cumulate_output_tokens batch (verified_id batch)
    else batch in
  (* Allocate cache locations *)
  do '(self, out_cache_loc, token_to_kv_pool_state_backup) <-
    (if page_size self =? 1 then
       do '(out_cache_loc, backup) <-
         alloc_token_slots A
           (num_seqs * speculative_num_steps self * topk self) true ;
       ret (self, out_cache_loc, backup)
     else
       let '(self, prefix_lens, seq_lens, last_loc, extend_num_tokens) :=
         if topk self =? 1 then
           let r := DraftCacheLayout.get_last_loc_large_page_size_top_k_1
                      get_last_loc (req_to_token batch)
                      (req_pool_indices batch) (seq_lens batch)
                      (speculative_num_steps self) in
           (self,
            DraftCacheLayout.k1_prefix_lens r,
            DraftCacheLayout.k1_seq_lens r,
            DraftCacheLayout.k1_last_loc r,
            num_seqs * speculative_num_steps self)
         else
           let r := DraftCacheLayout.get_last_loc_large_page_size_large_top_k
                      get_last_loc (req_to_token batch)
                      (req_pool_indices batch) (seq_lens batch)
                      (speculative_num_steps self) (topk self)
                      (page_size self) in
           let self :=
             {| page_size := page_size self; topk := topk self;
                speculative_num_steps := speculative_num_steps self;
                w_num_new_pages_per_topk :=
                  DraftCacheLayout.num_new_pages_per_topk r;
                w_extend_lens := DraftCacheLayout.extend_lens r |} in
           (self,
            DraftCacheLayout.prefix_lens r,
            DraftCacheLayout.new_seq_lens r,
            DraftCacheLayout.last_loc r,
            sum (w_extend_lens self)) in
       do '(out_cache_loc, backup) <-
         alloc_paged_token_slots_extend A
           prefix_lens seq_lens last_loc extend_num_tokens true ;
       ret (self, out_cache_loc, backup)) ;
  let '(req_to_token', out_cache_loc) :=
    assign_draft_cache_locs num_seqs
      {| a_req_pool_indices := req_pool_indices batch;
         a_req_to_token := req_to_token batch;
         a_seq_lens := seq_lens batch;
         a_extend_lens := w_extend_lens self;
         a_num_new_pages_per_topk := w_num_new_pages_per_topk self;
         a_out_cache_loc := out_cache_loc;
         a_pool_len := Z.of_nat (length (hd [] (req_to_token batch)));
         a_topk := topk self;
         a_speculative_num_steps := speculative_num_steps self;
         a_page_size := page_size self;
         a_bs_upper := next_power_of_2 num_seqs;
         a_iter_upper := next_power_of_2 (speculative_num_steps self) |} in
  let out_cache_loc :=
    if (1 <? page_size self) && (1 <? topk self) then
      (* Remove padded slots *)
      slice_to out_cache_loc
        (num_seqs * topk self * speculative_num_steps self)
    else out_cache_loc in
  let batch :=
    {| reqs := reqs batch; req_pool_indices := req_pool_indices batch;
       seq_lens := seq_lens batch; req_to_token := req_to_token';
       out_cache_loc := out_cache_loc;
       seq_lens_sum := sum (seq_lens batch);
       return_hidden_states := false;
       verified_id := verified_id batch;
       positions := repeat_interleave (seq_lens batch) (topk self);
       penalizer_is_required := penalizer_is_required batch;
       penalizer_cumulated := penalizer_cumulated batch |} in
  match token_to_kv_pool_state_backup with
  | Some token => restore A token ;; ret (self, batch)
  | None => raise TypeError
  end.

(** The slots the allocator is asked for, as the routine computes them. *)
Definition requested_call (self : Worker) (batch : Batch) : AllocCall :=
  if page_size self =? 1 then
    CallAllocTokenSlots
      (batch_size batch * speculative_num_steps self * topk self) true
  else if topk self =? 1 then
    CallAllocPagedTokenSlotsExtend
      (seq_lens batch)
      (Tensor.add_s (seq_lens batch) (speculative_num_steps self))
      (get_last_loc (req_to_token batch) (req_pool_indices batch) (seq_lens batch))
      (batch_size batch * speculative_num_steps self) true
  else
    let r := DraftCacheLayout.get_last_loc_large_page_size_large_top_k
               get_last_loc (req_to_token batch) (req_pool_indices batch)
               (seq_lens batch) (speculative_num_steps self) (topk self)
               (page_size self) in
    CallAllocPagedTokenSlotsExtend
      (DraftCacheLayout.prefix_lens r) (DraftCacheLayout.new_seq_lens r)
      (DraftCacheLayout.last_loc r)
      (Tensor.sum (DraftCacheLayout.extend_lens r)) true.

(** What the allocator answers to that call. *)
Definition allocation (self : Worker) (batch : Batch) (s : astate A)
  : option (list Z * astate A) :=
  match requested_call self batch with
  | CallAllocTokenSlots n _ => alloc A n s
  | CallAllocPagedTokenSlotsExtend p q l n _ => alloc_extend A p q l n s
  | CallRestoreState => None
  end.

End Preprocess.

(** A pool on which no call has been made yet. *)
Definition fresh_pool {A : Allocator} (s : astate A) : Pool A :=
  {| pool_state := s; pool_calls := [] |}.

(** The kernel as it acts in a page-size-1 deployment: request [pid] owns the [topk * steps] slots of [out_cache_loc] starting at
    [pid * topk * steps]; they are copied into its row of the
    request-to-token table from column [seq_lens[pid]] on, and the buffer
    itself is left as it is. *)
Definition copy_row (row : list Z) (start : nat) (data : list Z) : list Z :=
  take start row ++ data ++ drop (start + length data)%nat row.

Definition assign_one (a : AssignArgs) (table : list (list Z)) (pid : nat)
  : list (list Z) :=
  let copy_len := Z.to_nat (a_topk a * a_speculative_num_steps a) in
  let data := take copy_len (drop (pid * copy_len)%nat (a_out_cache_loc a)) in
  match a_req_pool_indices a !! pid, a_seq_lens a !! pid with
  | Some r, Some kv_start =>
      match table !! Z.to_nat r with
      | Some row =>
          <[ Z.to_nat r := copy_row row (Z.to_nat kv_start) data ]> table
      | None => table
      end
  | _, _ => table
  end.

Definition assign_page1 (grid : Z) (a : AssignArgs) : list (list Z) * list Z :=
  (fold_left (assign_one a) (seq 0 (Z.to_nat grid)) (a_req_to_token a),
   a_out_cache_loc a).

(** [next_power_of_2] of [sglang.srt.utils], declared outside this file:
    the least power of two that is not below [n]. *)
Definition next_power_of_2 (n : Z) : Z :=
  if n <=? 1 then 1 else 2 ^ Z.log2_up n.

End DraftPreprocess.

(** ** Floating-point tensors and model outputs *)

(** Logits, probabilities and hidden states hold IEEE-754 values. *)
Definition float : Type := spec_float.

Inductive CaptureHiddenMode : Type := NULL | LAST | FULL.

Definition CaptureHiddenMode_eqb (a b : CaptureHiddenMode) : bool :=
  match a, b with
  | NULL, NULL | LAST, LAST | FULL, FULL => true
  | _, _ => false
  end.

Inductive ForwardMode : Type :=
| EXTEND | DECODE | MIXED | IDLE | TARGET_VERIFY | DRAFT_EXTEND.

Definition is_idle (m : ForwardMode) : bool :=
  match m with IDLE => true | _ => false end.

Record LogitsProcessorOutput : Type := {
  next_token_logits : list (list float);
  hidden_states : list (list float);
  lo_topk_p : option (list (list float));
  lo_topk_index : option (list (list Z));
  next_token_logprobs : option (list float);
  next_token_top_logprobs_val : option (list (list float));
  next_token_top_logprobs_idx : option (list (list Z));
  next_token_token_ids_logprobs_val : option (list (list float));
  next_token_token_ids_logprobs_idx : option (list (list Z));
}.

(** ** NaN detection: [_detect_nan_if_needed] *)

Module NanDetection.

(** [torch.isnan] on one entry. *)
Definition isnan (x : float) : bool :=
  match x with S754_nan => true | _ => false end.

(** [torch.any(torch.isnan(logits))] on a two-dimensional tensor. *)
Definition any_isnan (logits : list (list float)) : bool :=
  existsb (existsb isnan) logits.

Definition nan_message : string :=
  "Detected errors during sampling! NaN in the logits.".

Definition _detect_nan_if_needed
    (enable_nan_detection : bool) (logits_output : LogitsProcessorOutput)
  : Result unit :=
  if enable_nan_detection then
    let logits := next_token_logits logits_output in
    if any_isnan logits then Raise (ValueError nan_message)
    else Ok tt
  else Ok tt.

End NanDetection.

(** ** Hot-token remap *)

Module HotToken.
Import Tensor.

(** [hot_token_id[topk_index]] for a two-dimensional index tensor. *)
Fixpoint index_rows (hot_token_id : list Z) (topk_index : list (list Z))
  : Result (list (list Z)) :=
  match topk_index with
  | [] => Ok []
  | row :: rest =>
      match gather hot_token_id row with
      | inl e => Raise e
      | inr r =>
          match index_rows hot_token_id rest with
          | inl e => Raise e
          | inr rs => Ok (r :: rs)
          end
      end
  end.

(** The remap of [draft_forward]:
    [if self.hot_token_id is not None: topk_index = self.hot_token_id[topk_index]]. *)
Definition remap (hot_token_id : option (list Z)) (topk_index : list (list Z))
  : Result (list (list Z)) :=
  match hot_token_id with
  | Some hot => index_rows hot topk_index
  | None => Ok topk_index
  end.

(** Every entry of the map is a position of the map that the map sends to
    itself. *)
Definition fixes_own_entries (hot_token_id : list Z) : Prop :=
  Forall (fun v => index hot_token_id v = Ok v) hot_token_id.

End HotToken.

(** ** Attention backend selection: [init_attention_backend] *)

Module AttentionBackend.

(** The multi-step draft backends, built from the draft model runner, the
    top-k and the number of speculative steps. *)
Inductive DraftBackend : Type :=
| FlashInferMultiStepDraftBackend (topk steps : Z)
| FlashInferMLAMultiStepDraftBackend (topk steps : Z)
| TritonMultiStepDraftBackend (topk steps : Z)
| FlashAttentionMultiStepBackend (topk steps : Z)
| FlashMLAMultiStepDraftBackend (topk steps : Z).

(** The prefill-capable backends of draft extend ([skip_prefill=False]). *)
Inductive ExtendBackend : Type :=
| FlashInferAttnBackend
| FlashInferMLAAttnBackend
| TritonAttnBackend
| FlashAttentionBackend.

Record Backends : Type := {
  has_prefill_wrapper_verify : bool;
  draft_extend_attn_backend : option ExtendBackend;
  draft_attn_backend : DraftBackend;
}.

Definition unsupported_message (attention_backend : string) : string :=
  "EAGLE is not supported in attention backend " +:+ attention_backend.

Definition init_attention_backend
    (attention_backend : string) (use_mla_backend : bool)
    (topk speculative_num_steps : Z) : Result Backends :=
  if String.eqb attention_backend "flashinfer" then
    if negb use_mla_backend then
      Ok {| has_prefill_wrapper_verify := true;
            draft_extend_attn_backend := Some FlashInferAttnBackend;
            draft_attn_backend :=
              FlashInferMultiStepDraftBackend topk speculative_num_steps |}
    else
      Ok {| has_prefill_wrapper_verify := true;
            draft_extend_attn_backend := Some FlashInferMLAAttnBackend;
            draft_attn_backend :=
              FlashInferMLAMultiStepDraftBackend topk speculative_num_steps |}
  else if String.eqb attention_backend "triton" then
    Ok {| has_prefill_wrapper_verify := false;
          draft_extend_attn_backend := Some TritonAttnBackend;
          draft_attn_backend :=
            TritonMultiStepDraftBackend topk speculative_num_steps |}
  else if String.eqb attention_backend "fa3" then
    Ok {| has_prefill_wrapper_verify := false;
          draft_extend_attn_backend := Some FlashAttentionBackend;
          draft_attn_backend :=
            FlashAttentionMultiStepBackend topk speculative_num_steps |}
  else if String.eqb attention_backend "flashmla" then
    Ok {| has_prefill_wrapper_verify := false;
          draft_extend_attn_backend := None;
          draft_attn_backend :=
            FlashMLAMultiStepDraftBackend topk speculative_num_steps |}
  else
    Raise (ValueError (unsupported_message attention_backend)).

(** The multi-step draft backend a call created, if it returned. *)
Definition created_draft_backend (r : Result Backends) : option DraftBackend :=
  match r with
  | inr b => Some (draft_attn_backend b)
  | inl _ => None
  end.

(** The backend kinds the specification lists. *)
Definition spec_kinds : list string :=
  ["flashinfer"; "flashinfer-mla"; "triton"; "fa3"; "flashmla"]%string.

(** The backend kinds the dispatch accepts. *)
Definition accepted_kinds : list string :=
  ["flashinfer"; "triton"; "fa3"; "flashmla"]%string.

End AttentionBackend.

(** ** Verification and log-probability attachment *)

Module Verifier.
Import Tensor NanDetection.

(** A vocabulary bitmask, one row per draft-tree node. *)
Definition Mask : Type := list (list Z).

Record SamplingInfo : Type := {
  vocab_mask : option Mask;
  vocab_size : Z;
  temperatures : list float;
}.

Record Req : Type := {
  r_return_logprob : bool;
  top_logprobs_num : Z;
  output_token_logprobs_val : list float;
  output_token_logprobs_idx : list Z;
  output_top_logprobs_val : list (list float);
  output_top_logprobs_idx : list (list Z);
}.

Record EagleDraftInput : Type := {
  di_verified_id : list Z;
  di_accept_length : list Z;
  di_hidden_states : list (list float);
}.

Record EagleVerifyInput : Type := {
  draft_token : list Z;
  retrive_next_token : list (list Z);
  retrive_next_sibling : list (list Z);
  draft_token_num : Z;
  vi_capture_hidden_mode : CaptureHiddenMode;
  vi_hidden_states : list (list float);
  grammar : option Z;
  seq_lens_cpu : option (list Z);
}.

(** [batch.spec_info]: a draft input of the batch's own, or the verify
    input object that [verify] was handed (shared with the local
    [spec_info], so a write through either name is seen through both). *)
Inductive SpecInfoRef : Type :=
| SpecDraft (d : EagleDraftInput)
| SpecVerify.

Record Batch : Type := {
  forward_mode : ForwardMode;
  return_hidden_states : bool;
  spec_info : SpecInfoRef;
  has_grammar : bool;
  sampling_info : SamplingInfo;
  return_logprob : bool;
  reqs : list Req;
  top_logprobs_nums : list Z;
  token_ids_logprobs : list (option (list Z));
}.

Record EagleVerifyOutput : Type := {
  draft_input : EagleDraftInput;
  vo_logits_output : nat;
  verified_id : list Z;
  accept_length_per_req_cpu : list Z;
  accepted_indices : list Z;
}.

Record ModelWorkerBatch : Type := {
  mwb_capture_hidden_mode : CaptureHiddenMode;
  bid : Z;
}.

(** What a verify step can reach: the batch, the verify input object, the
    logits output objects (named by their position) and the rest of the
    system ([Rest]: the KV pool and the model runners' own state). *)
Record Env (Rest : Type) : Type := {
  batch : Batch;
  the_spec_info : EagleVerifyInput;
  logits_objs : list LogitsProcessorOutput;
  rest : Rest;
}.
Arguments batch {Rest} _.
Arguments the_spec_info {Rest} _.
Arguments logits_objs {Rest} _.
Arguments rest {Rest} _.

(** What a verify step does to the vocabulary mask, in program order. *)
Inductive Event : Type :=
| EvGenerateTokenBitmask (result : option Mask)
| EvClearVocabMask
| EvSpecVerify (sampling_vocab_mask vocab_mask : option Mask).

Record World (Rest : Type) : Type := {
  env : Env Rest;
  events : list Event;
}.
Arguments env {Rest} _.
Arguments events {Rest} _.

Definition set_forward_mode (m : ForwardMode) (b : Batch) : Batch :=
  {| forward_mode := m; return_hidden_states := return_hidden_states b;
     spec_info := spec_info b; has_grammar := has_grammar b;
     sampling_info := sampling_info b; return_logprob := return_logprob b;
     reqs := reqs b; top_logprobs_nums := top_logprobs_nums b;
     token_ids_logprobs := token_ids_logprobs b |}.

Definition set_return_hidden_states (v : bool) (b : Batch) : Batch :=
  {| forward_mode := forward_mode b; return_hidden_states := v;
     spec_info := spec_info b; has_grammar := has_grammar b;
     sampling_info := sampling_info b; return_logprob := return_logprob b;
     reqs := reqs b; top_logprobs_nums := top_logprobs_nums b;
     token_ids_logprobs := token_ids_logprobs b |}.

Definition set_spec_info (r : SpecInfoRef) (b : Batch) : Batch :=
  {| forward_mode := forward_mode b;
     return_hidden_states := return_hidden_states b;
     spec_info := r; has_grammar := has_grammar b;
     sampling_info := sampling_info b; return_logprob := return_logprob b;
     reqs := reqs b; top_logprobs_nums := top_logprobs_nums b;
     token_ids_logprobs := token_ids_logprobs b |}.

Definition set_vocab_mask (m : option Mask) (b : Batch) : Batch :=
  {| forward_mode := forward_mode b;
     return_hidden_states := return_hidden_states b;
     spec_info := spec_info b; has_grammar := has_grammar b;
     sampling_info :=
       {| vocab_mask := m; vocab_size := vocab_size (sampling_info b);
          temperatures := temperatures (sampling_info b) |};
     return_logprob := return_logprob b;
     reqs := reqs b; top_logprobs_nums := top_logprobs_nums b;
     token_ids_logprobs := token_ids_logprobs b |}.

Definition set_reqs (rs : list Req) (b : Batch) : Batch :=
  {| forward_mode := forward_mode b;
     return_hidden_states := return_hidden_states b;
     spec_info := spec_info b; has_grammar := has_grammar b;
     sampling_info := sampling_info b; return_logprob := return_logprob b;
     reqs := rs; top_logprobs_nums := top_logprobs_nums b;
     token_ids_logprobs := token_ids_logprobs b |}.

Definition set_vi_hidden_states (h : list (list float)) (v : EagleVerifyInput)
  : EagleVerifyInput :=
  {| draft_token := draft_token v;
     retrive_next_token := retrive_next_token v;
     retrive_next_sibling := retrive_next_sibling v;
     draft_token_num := draft_token_num v;
     vi_capture_hidden_mode := vi_capture_hidden_mode v;
     vi_hidden_states := h; grammar := grammar v;
     seq_lens_cpu := seq_lens_cpu v |}.

(** [t.view(rows, cols)] of a flat tensor. *)
Fixpoint chunks {A : Type} (rows cols : nat) (t : list A) : list (list A) :=
  match rows with
  | O => []
  | S rows' => take cols t :: chunks rows' cols (drop cols t)
  end.

Definition view_as {A B : Type} (t : list A) (shape : list (list B))
  : Result (list (list A)) :=
  let rows := length shape in
  let cols := length (hd [] shape) in
  if Nat.eqb (length t) (rows * cols) then Ok (chunks rows cols t)
  else Raise (RuntimeError "shape is invalid for input size").

(** *** [add_logprob_values] *)

Section Routines.
Variable Rest : Type.

(** Tensor kernels and the sampler's helpers: division of two floats,
    [log_softmax] along the last dimension of one row,
    [get_top_logprobs] and [get_token_ids_logprobs]. *)
Variable fdiv : float -> float -> float.
Variable log_softmax : list float -> list float.
Variable get_top_logprobs :
  list (list float) -> list Z -> list (list float) * list (list Z).
Variable get_token_ids_logprobs :
  list (list float) -> list (option (list Z)) ->
  list (list float) * list (list Z).

(** [accepted_indices // num_draft_tokens] *)
Definition request_of (accepted_indices : list Z) (num_draft_tokens : Z)
  : Result (list Z) :=
  if num_draft_tokens =? 0 then Raise (RuntimeError "ZeroDivisionError")
  else Ok (floordiv_s accepted_indices num_draft_tokens).

(** [log_softmax(next_token_logits / temperatures, dim=-1)], one
    temperature per row. *)
Definition scaled_logprobs (logits : list (list float)) (temps : list float)
  : list (list float) :=
  zip_with (fun row t => log_softmax (map (fun x => fdiv x t) row))
           logits temps.

(** [[x] * n for (x, n) in zip(xs, ns)], concatenated. *)
Definition repeat_interleaved {A : Type} (xs : list A) (ns : list Z) : list A :=
  concat (zip_with (fun x n => replicate (Z.to_nat n) x) xs ns).

(** [logprobs[torch.arange(len(ids)), ids]] *)
Fixpoint pick (logprobs : list (list float)) (j : Z) (ids : list Z)
  : Result (list float) :=
  match ids with
  | [] => Ok []
  | i :: ids' =>
      match index logprobs j with
      | inl e => Raise e
      | inr row =>
          match index row i with
          | inl e => Raise e
          | inr v =>
              match pick logprobs (j + 1) ids' with
              | inl e => Raise e
              | inr vs => Ok (v :: vs)
              end
          end
      end
  end.

Definition append_token_logprob (v : float) (req : Req) : Req :=
  {| r_return_logprob := r_return_logprob req;
     top_logprobs_num := top_logprobs_num req;
     output_token_logprobs_val := output_token_logprobs_val req ++ [v];
     output_token_logprobs_idx := output_token_logprobs_idx req;
     output_top_logprobs_val := output_top_logprobs_val req;
     output_top_logprobs_idx := output_top_logprobs_idx req |}.

Definition append_token_id (i : Z) (req : Req) : Req :=
  {| r_return_logprob := r_return_logprob req;
     top_logprobs_num := top_logprobs_num req;
     output_token_logprobs_val := output_token_logprobs_val req;
     output_token_logprobs_idx := output_token_logprobs_idx req ++ [i];
     output_top_logprobs_val := output_top_logprobs_val req;
     output_top_logprobs_idx := output_top_logprobs_idx req |}.

Definition append_top_val (v : list float) (req : Req) : Req :=
  {| r_return_logprob := r_return_logprob req;
     top_logprobs_num := top_logprobs_num req;
     output_token_logprobs_val := output_token_logprobs_val req;
     output_token_logprobs_idx := output_token_logprobs_idx req;
     output_top_logprobs_val := output_top_logprobs_val req ++ [v];
     output_top_logprobs_idx := output_top_logprobs_idx req |}.

Definition append_top_idx (v : list Z) (req : Req) : Req :=
  {| r_return_logprob := r_return_logprob req;
     top_logprobs_num := top_logprobs_num req;
     output_token_logprobs_val := output_token_logprobs_val req;
     output_token_logprobs_idx := output_token_logprobs_idx req;
     output_top_logprobs_val := output_top_logprobs_val req;
     output_top_logprobs_idx := output_top_logprobs_idx req ++ [v] |}.

(** [xs[pt]] where the attribute [xs] may still be [None]. *)
Definition index_attr {A : Type} (xs : option (list A)) (pt : Z) : Result A :=
  match xs with
  | Some l => index l pt
  | None => Raise TypeError
  end.

(** The body of the inner loop, for one token of one request.  The
    request is the state; an exception leaves the appends made so far. *)
Definition attach_one
    (next_token_logprobs : list float) (verified_ids : list Z)
    (top_val : option (list (list float))) (top_idx : option (list (list Z)))
    (pt : Z) : M Req unit :=
  do req <- get ;
  if r_return_logprob req then
    do v <- lift (index next_token_logprobs pt) ;
    modify (append_token_logprob v) ;;
    do i <- lift (index verified_ids pt) ;
    modify (append_token_id i) ;;
    if 0 <? top_logprobs_num req then
      do tv <- lift (index_attr top_val pt) ;
      modify (append_top_val tv) ;;
      do ti <- lift (index_attr top_idx pt) ;
      modify (append_top_idx ti)
    else ret tt
  else ret tt.

(** [for _ in range(num_tokens): ...; pt += 1], returning the new [pt]. *)
Fixpoint attach_tokens
    (next_token_logprobs : list float) (verified_ids : list Z)
    (top_val : option (list (list float))) (top_idx : option (list (list Z)))
    (num_tokens : nat) (pt : Z) : M Req Z :=
  match num_tokens with
  | O => ret pt
  | S n =>
      attach_one next_token_logprobs verified_ids top_val top_idx pt ;;
      attach_tokens next_token_logprobs verified_ids top_val top_idx
        n (pt + 1)
  end.

(** [for req, num_tokens in zip(batch.reqs, num_tokens_per_req,
    strict=True)]: the requests are updated in place, so an exception
    leaves the requests processed so far updated. *)
Fixpoint attach_all
    (next_token_logprobs : list float) (verified_ids : list Z)
    (top_val : option (list (list float))) (top_idx : option (list (list Z)))
    (reqs : list Req) (num_tokens_per_req : list Z) (pt : Z)
  : Result Z * list Req :=
  match reqs, num_tokens_per_req with
  | [], [] => (Ok pt, [])
  | req :: reqs', num_tokens :: nums' =>
      match attach_tokens next_token_logprobs verified_ids top_val top_idx
              (Z.to_nat num_tokens) pt req with
      | (inl e, req') => (Raise e, req' :: reqs')
      | (inr pt', req') =>
          let '(r, rest) :=
            attach_all next_token_logprobs verified_ids top_val top_idx
              reqs' nums' pt' in
          (r, req' :: rest)
      end
  | [], _ :: _ => (Raise (ValueError "zip() argument 2 is longer than argument 1"), [])
  | _ :: _, [] => (Raise (ValueError "zip() argument 2 is shorter than argument 1"), reqs)
  end.

Definition set_batch (b : Batch) (e : Env Rest) : Env Rest :=
  {| batch := b; the_spec_info := the_spec_info e;
     logits_objs := logits_objs e; rest := rest e |}.

Definition set_the_spec_info (v : EagleVerifyInput) (e : Env Rest) : Env Rest :=
  {| batch := batch e; the_spec_info := v;
     logits_objs := logits_objs e; rest := rest e |}.

Definition get_logits (ref : nat) : M (Env Rest) LogitsProcessorOutput :=
  do e <- get ;
  match logits_objs e !! ref with
  | Some lo => ret lo
  | None => raise AttributeError
  end.

Definition put_logits (ref : nat) (lo : LogitsProcessorOutput)
  : M (Env Rest) unit :=
  modify (fun e =>
    {| batch := batch e; the_spec_info := the_spec_info e;
       logits_objs := <[ ref := lo ]> (logits_objs e); rest := rest e |}).

Definition with_top_logprobs
    (r : list (list float) * list (list Z)) (lo : LogitsProcessorOutput)
  : LogitsProcessorOutput :=
  {| next_token_logits := next_token_logits lo;
     hidden_states := hidden_states lo;
     lo_topk_p := lo_topk_p lo; lo_topk_index := lo_topk_index lo;
     next_token_logprobs := next_token_logprobs lo;
     next_token_top_logprobs_val := Some (fst r);
     next_token_top_logprobs_idx := Some (snd r);
     next_token_token_ids_logprobs_val := next_token_token_ids_logprobs_val lo;
     next_token_token_ids_logprobs_idx := next_token_token_ids_logprobs_idx lo |}.

Definition with_token_ids_logprobs
    (r : list (list float) * list (list Z)) (lo : LogitsProcessorOutput)
  : LogitsProcessorOutput :=
  {| next_token_logits := next_token_logits lo;
     hidden_states := hidden_states lo;
     lo_topk_p := lo_topk_p lo; lo_topk_index := lo_topk_index lo;
     next_token_logprobs := next_token_logprobs lo;
     next_token_top_logprobs_val := next_token_top_logprobs_val lo;
     next_token_top_logprobs_idx := next_token_top_logprobs_idx lo;
     next_token_token_ids_logprobs_val := Some (fst r);
     next_token_token_ids_logprobs_idx := Some (snd r) |}.

Definition with_next_token_logprobs
    (v : list float) (lo : LogitsProcessorOutput) : LogitsProcessorOutput :=
  {| next_token_logits := next_token_logits lo;
     hidden_states := hidden_states lo;
     lo_topk_p := lo_topk_p lo; lo_topk_index := lo_topk_index lo;
     next_token_logprobs := Some v;
     next_token_top_logprobs_val := next_token_top_logprobs_val lo;
     next_token_top_logprobs_idx := next_token_top_logprobs_idx lo;
     next_token_token_ids_logprobs_val := next_token_token_ids_logprobs_val lo;
     next_token_token_ids_logprobs_idx := next_token_token_ids_logprobs_idx lo |}.

(** [batch.spec_info.draft_token_num] *)
Definition batch_draft_token_num : M (Env Rest) Z :=
  do e <- get ;
  match spec_info (batch e) with
  | SpecVerify => ret (draft_token_num (the_spec_info e))
  | SpecDraft _ => raise AttributeError
  end.

(** The routine returns the final value of its read pointer [pt], which
    the source keeps in a local variable. *)
Definition add_logprob_values (res : EagleVerifyOutput) (logits_output : nat)
  : M (Env Rest) Z :=
  (* Extract args *)
  let logits_output := vo_logits_output res in
  do lo <- get_logits logits_output ;
  do e <- get ;
  let top_logprobs_nums := top_logprobs_nums (batch e) in
  let token_ids_logprobs := token_ids_logprobs (batch e) in
  let accepted_indices := accepted_indices res in
  assert (Nat.eqb (length accepted_indices) (length (next_token_logits lo))) ;;
  let temperatures := temperatures (sampling_info (batch e)) in
  do num_draft_tokens <- batch_draft_token_num ;
  do req_idx <- lift (request_of accepted_indices num_draft_tokens) ;
  do temperatures <- lift (gather temperatures req_idx) ;
  let logprobs := scaled_logprobs (next_token_logits lo) temperatures in
  let batch_next_token_ids := verified_id res in
  let num_tokens_per_req :=
    map (fun accept => accept + 1) (accept_length_per_req_cpu res) in
  (* We should repeat top_logprobs_nums to match num_tokens_per_req. *)
  let top_logprobs_nums_repeat_interleaved :=
    repeat_interleaved top_logprobs_nums num_tokens_per_req in
  let token_ids_logprobs_repeat_interleaved :=
    repeat_interleaved token_ids_logprobs num_tokens_per_req in
  (* Extract logprobs *)
  let lo :=
    if existsb (fun x => 0 <? x) top_logprobs_nums
    then with_top_logprobs
           (get_top_logprobs logprobs top_logprobs_nums_repeat_interleaved) lo
    else lo in
  put_logits logits_output lo ;;
  let lo :=
    if existsb (fun x => match x with Some _ => true | None => false end)
         token_ids_logprobs
    then with_token_ids_logprobs
           (get_token_ids_logprobs logprobs
              token_ids_logprobs_repeat_interleaved) lo
    else lo in
  put_logits logits_output lo ;;
  do picked <- lift (pick logprobs 0 batch_next_token_ids) ;
  let lo := with_next_token_logprobs picked lo in
  put_logits logits_output lo ;;
  (* Add output logprobs to the request *)
  let next_token_logprobs := picked in
  let verified_ids := batch_next_token_ids in
  do e <- get ;
  let '(r, reqs') :=
    attach_all next_token_logprobs verified_ids
      (next_token_top_logprobs_val lo) (next_token_top_logprobs_idx lo)
      (reqs (batch e)) num_tokens_per_req 0 in
  modify (fun e => set_batch (set_reqs reqs' (batch e)) e) ;;
  lift r.

(** The number of tokens a request contributes, [accept + 1]; where the
    read pointer [pt] stands when request [b] is reached; and [l[start :
    start + n]]. *)
Definition num_tokens (accept : Z) : nat := Z.to_nat (accept + 1).

Definition read_offset (accept_lengths : list Z) (b : nat) : nat :=
  sum_list (map num_tokens (take b accept_lengths)).

Definition py_slice {A : Type} (l : list A) (start n : nat) : list A :=
  take n (drop start l).

(** *** [verify] *)

Variable enable_nan_detection : bool.
Variable page_size : Z.

(** Declared outside this file: [EagleVerifyInput.prepare_for_verify],
    [ScheduleBatch.get_model_worker_batch], the target worker's
    [forward_batch_generation] (returning the logits output object and
    [can_run_cuda_graph]), [generate_token_bitmask] and
    [EagleVerifyInput.verify].  Each may read and write whatever the
    step can reach, and may raise. *)
Variable prepare_for_verify : Z -> M (Env Rest) unit.
Variable get_model_worker_batch :
  option (list Z) -> M (Env Rest) ModelWorkerBatch.
Variable forward_batch_generation :
  ModelWorkerBatch -> bool -> M (Env Rest) (nat * bool).
Variable generate_token_bitmask :
  list Req -> list (list Z) -> list (list Z) -> list (list Z) -> Z ->
  M (Env Rest) (option Mask).
Variable spec_verify : nat -> Z -> option Mask -> M (Env Rest) EagleVerifyOutput.

(** Run a routine on what the step can reach; the record of events is
    out of its reach. *)
Definition ext {X : Type} (f : M (Env Rest) X) : M (World Rest) X :=
  fun w =>
    let '(r, e') := f (env w) in
    (r, {| env := e'; events := events w |}).

Definition emit (ev : Event) : M (World Rest) unit :=
  modify (fun w => {| env := env w; events := events w ++ [ev] |}).

Definition upd_batch (f : Batch -> Batch) : M (World Rest) unit :=
  ext (modify (fun e => set_batch (f (batch e)) e)).

Definition with_next_token_logits
    (v : list (list float)) (lo : LogitsProcessorOutput)
  : LogitsProcessorOutput :=
  {| next_token_logits := v;
     hidden_states := hidden_states lo;
     lo_topk_p := lo_topk_p lo; lo_topk_index := lo_topk_index lo;
     next_token_logprobs := next_token_logprobs lo;
     next_token_top_logprobs_val := next_token_top_logprobs_val lo;
     next_token_top_logprobs_idx := next_token_top_logprobs_idx lo;
     next_token_token_ids_logprobs_val := next_token_token_ids_logprobs_val lo;
     next_token_token_ids_logprobs_idx := next_token_token_ids_logprobs_idx lo |}.

Definition with_hidden_states
    (v : list (list float)) (lo : LogitsProcessorOutput)
  : LogitsProcessorOutput :=
  {| next_token_logits := next_token_logits lo;
     hidden_states := v;
     lo_topk_p := lo_topk_p lo; lo_topk_index := lo_topk_index lo;
     next_token_logprobs := next_token_logprobs lo;
     next_token_top_logprobs_val := next_token_top_logprobs_val lo;
     next_token_top_logprobs_idx := next_token_top_logprobs_idx lo;
     next_token_token_ids_logprobs_val := next_token_token_ids_logprobs_val lo;
     next_token_token_ids_logprobs_idx := next_token_token_ids_logprobs_idx lo |}.

(** The mask handling between the target forward and the acceptance
    step: lines [vocab_mask = None] to [batch.sampling_info.vocab_mask =
    None]. *)
Definition make_vocab_mask
    (cpu : option (list (list Z) * list (list Z) * list (list Z)))
  : M (World Rest) (option Mask) :=
  do w <- get ;
  if has_grammar (batch (env w)) then
    match cpu with
    | None => raise UnboundLocalError
    | Some (retrieve_next_token_cpu, retrieve_next_sibling_cpu,
            draft_tokens_cpu) =>
        (* Generate the logit mask for structured output. *)
        do vmask <-
          ext (generate_token_bitmask (reqs (batch (env w)))
                 retrieve_next_token_cpu retrieve_next_sibling_cpu
                 draft_tokens_cpu
                 (vocab_size (sampling_info (batch (env w))))) ;
        emit (EvGenerateTokenBitmask vmask) ;;
        match vmask with
        | Some m =>
            do w <- get ;
            assert (bool_decide (is_Some (grammar (the_spec_info (env w))))) ;;
            (* vocab_mask.to(device) keeps the contents *)
            upd_batch (set_vocab_mask None) ;;
            emit EvClearVocabMask ;;
            ret (Some m)
        | None => ret None
        end
    end
  else ret None.

Definition verify
  : M (World Rest) (nat * EagleVerifyOutput * ModelWorkerBatch * bool) :=
  ext (prepare_for_verify page_size) ;;
  upd_batch (set_return_hidden_states false) ;;
  upd_batch (fun b =>
    set_forward_mode
      (if negb (is_idle (forward_mode b)) then TARGET_VERIFY else IDLE) b) ;;
  upd_batch (set_spec_info SpecVerify) ;;
  do w <- get ;
  do model_worker_batch <-
    ext (get_model_worker_batch (seq_lens_cpu (the_spec_info (env w)))) ;
  do w <- get ;
  assert (CaptureHiddenMode_eqb
            (mwb_capture_hidden_mode model_worker_batch)
            (vi_capture_hidden_mode (the_spec_info (env w)))) ;;
  do cpu <-
    (if has_grammar (batch (env w)) then
       let si := the_spec_info (env w) in
       do draft_tokens_cpu <-
         lift (view_as (draft_token si) (retrive_next_token si)) ;
       ret (Some (retrive_next_token si, retrive_next_sibling si,
                  draft_tokens_cpu))
     else ret None) ;
  (* Forward *)
  do '(logits_output, can_run_cuda_graph) <-
    ext (forward_batch_generation model_worker_batch true) ;
  do vmask <- make_vocab_mask cpu ;
  do lo <- ext (get_logits logits_output) ;
  lift (_detect_nan_if_needed enable_nan_detection lo) ;;
  ext (modify (fun e =>
    set_the_spec_info
      (set_vi_hidden_states (hidden_states lo) (the_spec_info e)) e)) ;;
  do w <- get ;
  emit (EvSpecVerify (vocab_mask (sampling_info (batch (env w)))) vmask) ;;
  do res <- ext (spec_verify logits_output page_size vmask) ;
  (* Post process based on verified outputs. *)
  do lo <- ext (get_logits logits_output) ;
  do picked <- lift (gather (next_token_logits lo) (accepted_indices res)) ;
  ext (put_logits logits_output (with_next_token_logits picked lo)) ;;
  do lo <- ext (get_logits logits_output) ;
  do picked <- lift (gather (hidden_states lo) (accepted_indices res)) ;
  ext (put_logits logits_output (with_hidden_states picked lo)) ;;
  do w <- get ;
  (if return_logprob (batch (env w))
   then ext (add_logprob_values res logits_output) ;; ret tt
   else ret tt) ;;
  (* Prepare the batch for the next draft forwards. *)
  upd_batch (fun b =>
    set_forward_mode
      (if negb (is_idle (forward_mode b)) then DECODE else IDLE) b) ;;
  upd_batch (set_spec_info (SpecDraft (draft_input res))) ;;
  ret (logits_output, res, model_worker_batch, can_run_cuda_graph).

(** A world in which no mask event has been recorded yet. *)
Definition start (e : Env Rest) : World Rest := {| env := e; events := [] |}.

(** A computation that records no mask event. *)
Definition silent {X : Type} (m : M (World Rest) X) : Prop :=
  forall w, events (snd (m w)) = events w.

(** A computation that, besides, leaves the batch as it is. *)
Definition batch_framing {X : Type} (m : M (World Rest) X) : Prop :=
  forall w,
    events (snd (m w)) = events w /\
    batch (env (snd (m w))) = batch (env w).

(** The mask events a verify step may leave behind: a generated mask is
    followed by the clearing of the batch's own mask, and the acceptance
    step that follows sees no mask on the batch and is handed the generated
    one. *)
Definition mask_discipline (evs : list Event) : Prop :=
  evs = [] \/
  (exists sm, evs = [EvSpecVerify sm None]) \/
  evs = [EvGenerateTokenBitmask None] \/
  (exists sm, evs = [EvGenerateTokenBitmask None; EvSpecVerify sm None]) \/
  (exists m,
     evs = [EvGenerateTokenBitmask (Some m)] \/
     evs = [EvGenerateTokenBitmask (Some m); EvClearVocabMask] \/
     evs = [EvGenerateTokenBitmask (Some m); EvClearVocabMask;
            EvSpecVerify None (Some m)]).

End Routines.

End Verifier.

(** ** Draft extend after decode: [forward_draft_extend_after_decode]

    The routine backs fields up by reference and by clone, hands the batch
    to routines that update it, and puts the backups back.  Batches, draft
    inputs and integer tensors are therefore objects of a store, named by
    their position in it; a field holds the name of the object it is bound
    to. *)

Module DraftExtend.
Import NanDetection.

(** Names of tensors, batches and draft inputs. *)
Abbreviation loc := nat (only parsing).
Abbreviation bid := nat (only parsing).
Abbreviation sid := nat (only parsing).

Record BatchObj : Type := {
  forward_mode : ForwardMode;
  seq_lens : loc;
  req_pool_indices : loc;
  spec_info : sid;
  return_logprob : bool;
  return_hidden_states : bool;
}.

Record DraftInputObj : Type := {
  accept_length : loc;
  verified_id : loc;
  num_tokens_per_batch : Z;
  num_tokens_for_logprob_per_batch : Z;
  capture_hidden_mode : CaptureHiddenMode;
  topk_p : option (list (list float));
  topk_index : option (list (list Z));
  di_hidden_states : list (list float);
}.

(** What [batch.spec_info] may be bound to. *)
Inductive SpecObj : Type :=
| DraftInput (d : DraftInputObj)
| VerifyInput.

(** [written] records the tensors that were written in place, most
    recent first. *)
Record Store : Type := {
  tensors : list (list Z);
  batches : list BatchObj;
  specs : list SpecObj;
  written : list loc;
}.

(** *** Field updates *)

Definition with_forward_mode (m : ForwardMode) (b : BatchObj) : BatchObj :=
  {| forward_mode := m; seq_lens := seq_lens b;
     req_pool_indices := req_pool_indices b; spec_info := spec_info b;
     return_logprob := return_logprob b;
     return_hidden_states := return_hidden_states b |}.

Definition with_seq_lens (l : loc) (b : BatchObj) : BatchObj :=
  {| forward_mode := forward_mode b; seq_lens := l;
     req_pool_indices := req_pool_indices b; spec_info := spec_info b;
     return_logprob := return_logprob b;
     return_hidden_states := return_hidden_states b |}.

Definition with_req_pool_indices (l : loc) (b : BatchObj) : BatchObj :=
  {| forward_mode := forward_mode b; seq_lens := seq_lens b;
     req_pool_indices := l; spec_info := spec_info b;
     return_logprob := return_logprob b;
     return_hidden_states := return_hidden_states b |}.

Definition with_spec_info (s : sid) (b : BatchObj) : BatchObj :=
  {| forward_mode := forward_mode b; seq_lens := seq_lens b;
     req_pool_indices := req_pool_indices b; spec_info := s;
     return_logprob := return_logprob b;
     return_hidden_states := return_hidden_states b |}.

Definition with_return_logprob (v : bool) (b : BatchObj) : BatchObj :=
  {| forward_mode := forward_mode b; seq_lens := seq_lens b;
     req_pool_indices := req_pool_indices b; spec_info := spec_info b;
     return_logprob := v;
     return_hidden_states := return_hidden_states b |}.

Definition with_return_hidden_states (v : bool) (b : BatchObj) : BatchObj :=
  {| forward_mode := forward_mode b; seq_lens := seq_lens b;
     req_pool_indices := req_pool_indices b; spec_info := spec_info b;
     return_logprob := return_logprob b;
     return_hidden_states := v |}.

Definition with_accept_length (l : loc) (d : DraftInputObj) : DraftInputObj :=
  {| accept_length := l; verified_id := verified_id d;
     num_tokens_per_batch := num_tokens_per_batch d;
     num_tokens_for_logprob_per_batch := num_tokens_for_logprob_per_batch d;
     capture_hidden_mode := capture_hidden_mode d;
     topk_p := topk_p d; topk_index := topk_index d;
     di_hidden_states := di_hidden_states d |}.

Definition with_verified_id (l : loc) (d : DraftInputObj) : DraftInputObj :=
  {| accept_length := accept_length d; verified_id := l;
     num_tokens_per_batch := num_tokens_per_batch d;
     num_tokens_for_logprob_per_batch := num_tokens_for_logprob_per_batch d;
     capture_hidden_mode := capture_hidden_mode d;
     topk_p := topk_p d; topk_index := topk_index d;
     di_hidden_states := di_hidden_states d |}.

(** Updates of the fields of a draft input that hold no integer tensor. *)
Definition with_plain
    (ntpb ntlpb : Z) (chm : CaptureHiddenMode)
    (tp : option (list (list float))) (ti : option (list (list Z)))
    (hs : list (list float)) (d : DraftInputObj) : DraftInputObj :=
  {| accept_length := accept_length d; verified_id := verified_id d;
     num_tokens_per_batch := ntpb;
     num_tokens_for_logprob_per_batch := ntlpb;
     capture_hidden_mode := chm;
     topk_p := tp; topk_index := ti; di_hidden_states := hs |}.

Definition with_num_tokens_per_batch (v : Z) (d : DraftInputObj) :=
  with_plain v (num_tokens_for_logprob_per_batch d) (capture_hidden_mode d)
    (topk_p d) (topk_index d) (di_hidden_states d) d.

Definition with_num_tokens_for_logprob_per_batch (v : Z) (d : DraftInputObj) :=
  with_plain (num_tokens_per_batch d) v (capture_hidden_mode d)
    (topk_p d) (topk_index d) (di_hidden_states d) d.

Definition with_capture_hidden_mode (v : CaptureHiddenMode) (d : DraftInputObj) :=
  with_plain (num_tokens_per_batch d) (num_tokens_for_logprob_per_batch d) v
    (topk_p d) (topk_index d) (di_hidden_states d) d.

Definition with_topk
    (tp : option (list (list float))) (ti : option (list (list Z)))
    (d : DraftInputObj) :=
  with_plain (num_tokens_per_batch d) (num_tokens_for_logprob_per_batch d)
    (capture_hidden_mode d) tp ti (di_hidden_states d) d.

Definition with_di_hidden_states (hs : list (list float)) (d : DraftInputObj) :=
  with_plain (num_tokens_per_batch d) (num_tokens_for_logprob_per_batch d)
    (capture_hidden_mode d) (topk_p d) (topk_index d) hs d.

Definition on_draft_input (f : DraftInputObj -> DraftInputObj) (o : SpecObj)
  : SpecObj :=
  match o with
  | DraftInput d => DraftInput (f d)
  | VerifyInput => VerifyInput
  end.

(** *** Store primitives *)

Definition get_batch (b : bid) : M Store BatchObj :=
  fun st =>
    match batches st !! b with
    | Some o => (Ok o, st)
    | None => (Raise AttributeError, st)
    end.

(** Reading a field of [batch.spec_info] as a draft input. *)
Definition get_draft_input (s : sid) : M Store DraftInputObj :=
  fun st =>
    match specs st !! s with
    | Some (DraftInput d) => (Ok d, st)
    | _ => (Raise AttributeError, st)
    end.

Definition update_batch (b : bid) (f : BatchObj -> BatchObj) : M Store unit :=
  modify (fun st =>
    {| tensors := tensors st; batches := alter f b (batches st);
       specs := specs st; written := written st |}).

Definition update_spec (s : sid) (f : DraftInputObj -> DraftInputObj)
  : M Store unit :=
  modify (fun st =>
    {| tensors := tensors st; batches := batches st;
       specs := alter (on_draft_input f) s (specs st);
       written := written st |}).

(** [batch.spec_info.<field> = ...] *)
Definition update_batch_spec (b : bid) (f : DraftInputObj -> DraftInputObj)
  : M Store unit :=
  do bo <- get_batch b ;
  get_draft_input (spec_info bo) ;;
  update_spec (spec_info bo) f.

Definition read_tensor (l : loc) : M Store (list Z) :=
  fun st =>
    match tensors st !! l with
    | Some c => (Ok c, st)
    | None => (Raise AttributeError, st)
    end.

(** A tensor that did not exist before. *)
Definition new_tensor (contents : list Z) : M Store loc :=
  fun st =>
    (Ok (length (tensors st)),
     {| tensors := tensors st ++ [contents]; batches := batches st;
        specs := specs st; written := written st |}).

(** [t.clone()] *)
Definition clone (l : loc) : M Store loc :=
  do c <- read_tensor l ;
  new_tensor c.

(** An in-place tensor operation such as [t.add_(1)]. *)
Definition write_in_place (l : loc) (f : list Z -> list Z) : M Store unit :=
  modify (fun st =>
    {| tensors := alter f l (tensors st); batches := batches st;
       specs := specs st; written := l :: written st |}).

Definition new_batch (o : BatchObj) : M Store bid :=
  fun st =>
    (Ok (length (batches st)),
     {| tensors := tensors st; batches := batches st ++ [o];
        specs := specs st; written := written st |}).

Definition new_spec (o : SpecObj) : M Store sid :=
  fun st =>
    (Ok (length (specs st)),
     {| tensors := tensors st; batches := batches st;
        specs := specs st ++ [o]; written := written st |}).

(** *** What the routines declared elsewhere may do

    [ScheduleBatch] methods update the batch they are called on;
    [EagleDraftInput] methods and the model runners also update the draft
    input the batch is bound to.  An attribute is either set, bound to a
    tensor that did not exist before, or the tensor it is bound to is
    written in place. *)

Inductive BatchAction : Type :=
| SetForwardMode (m : ForwardMode)
| SetReturnLogprob (v : bool)
| SetReturnHiddenStates (v : bool)
| RebindSeqLens (contents : list Z)
| RebindReqPoolIndices (contents : list Z)
| WriteSeqLens (f : list Z -> list Z)
| WriteReqPoolIndices (f : list Z -> list Z).

Inductive SpecAction : Type :=
| RebindAcceptLength (contents : list Z)
| RebindVerifiedId (contents : list Z)
| WriteAcceptLength (f : list Z -> list Z)
| WriteVerifiedId (f : list Z -> list Z)
| SetCaptureHiddenMode (m : CaptureHiddenMode).

Inductive Action : Type :=
| OnBatch (a : BatchAction)
| OnSpec (a : SpecAction).

Definition do_batch_action (b : bid) (a : BatchAction) : M Store unit :=
  match a with
  | SetForwardMode m => update_batch b (with_forward_mode m)
  | SetReturnLogprob v => update_batch b (with_return_logprob v)
  | SetReturnHiddenStates v => update_batch b (with_return_hidden_states v)
  | RebindSeqLens c =>
      do l <- new_tensor c ; update_batch b (with_seq_lens l)
  | RebindReqPoolIndices c =>
      do l <- new_tensor c ; update_batch b (with_req_pool_indices l)
  | WriteSeqLens f =>
      do bo <- get_batch b ; write_in_place (seq_lens bo) f
  | WriteReqPoolIndices f =>
      do bo <- get_batch b ; write_in_place (req_pool_indices bo) f
  end.

(** An action on the draft input that batch [b] is bound to. *)
Definition do_spec_action (b : bid) (a : SpecAction) : M Store unit :=
  do bo <- get_batch b ;
  let s := spec_info bo in
  match a with
  | RebindAcceptLength c =>
      do l <- new_tensor c ; update_spec s (with_accept_length l)
  | RebindVerifiedId c =>
      do l <- new_tensor c ; update_spec s (with_verified_id l)
  | WriteAcceptLength f =>
      do d <- get_draft_input s ; write_in_place (accept_length d) f
  | WriteVerifiedId f =>
      do d <- get_draft_input s ; write_in_place (verified_id d) f
  | SetCaptureHiddenMode m => update_spec s (with_capture_hidden_mode m)
  end.

Definition do_action (b : bid) (a : Action) : M Store unit :=
  match a with
  | OnBatch a => do_batch_action b a
  | OnSpec a => do_spec_action b a
  end.

Fixpoint do_actions (b : bid) (acts : list Action) : M Store unit :=
  match acts with
  | [] => ret tt
  | a :: rest => do_action b a ;; do_actions b rest
  end.

(** A routine looks at the store, acts on the batch it is given and
    returns or raises. *)
Definition Routine (X : Type) : Type := Store -> list Action * Result X.
Definition BatchRoutine (X : Type) : Type := Store -> list BatchAction * Result X.

Definition call {X : Type} (b : bid) (f : Routine X) : M Store X :=
  do st <- get ;
  let '(acts, r) := f st in
  do_actions b acts ;;
  lift r.

Definition call_batch {X : Type} (b : bid) (f : BatchRoutine X) : M Store X :=
  call b (fun st => let '(acts, r) := f st in (map OnBatch acts, r)).

Record Worker : Type := {
  topk : Z;
  speculative_num_steps : Z;
  enable_nan_detection : bool;
  is_eagle3 : bool;
  hidden_size : Z;
  has_cuda_graph_runner_for_draft_extend : bool;
}.

Record ModelWorkerBatch : Type := {
  mwb_capture_hidden_mode : CaptureHiddenMode;
}.

Record ForwardBatch : Type := {
  fb_forward_mode : ForwardMode;
  fb_seq_lens_cpu : option (list Z);
  fb_spec_info : sid;
  fb_seq_lens_sum : Z;
  fb_can_run_dp_cuda_graph : bool;
}.

Definition with_fb_seq_lens_sum (v : Z) (fb : ForwardBatch) : ForwardBatch :=
  {| fb_forward_mode := fb_forward_mode fb;
     fb_seq_lens_cpu := fb_seq_lens_cpu fb;
     fb_spec_info := fb_spec_info fb;
     fb_seq_lens_sum := v;
     fb_can_run_dp_cuda_graph := fb_can_run_dp_cuda_graph fb |}.

Definition with_fb_can_run_dp_cuda_graph (v : bool) (fb : ForwardBatch)
  : ForwardBatch :=
  {| fb_forward_mode := fb_forward_mode fb;
     fb_seq_lens_cpu := fb_seq_lens_cpu fb;
     fb_spec_info := fb_spec_info fb;
     fb_seq_lens_sum := fb_seq_lens_sum fb;
     fb_can_run_dp_cuda_graph := v |}.

(** The dummy tensors of an idle draft input. *)
Record IdleInput : Type := {
  idle_accept_length : list Z;
  idle_verified_id : list Z;
  idle_num_tokens_per_batch : Z;
  idle_num_tokens_for_logprob_per_batch : Z;
  idle_capture_hidden_mode : CaptureHiddenMode;
  idle_topk_p : option (list (list float));
  idle_topk_index : option (list (list Z));
  idle_hidden_states : list (list float);
}.

(** The routines declared outside this file. *)
Record Externals : Type := {
  (** [ScheduleBatch.copy()]: the fields of the new batch object. *)
  copy_fields : Store -> bid -> BatchObj;
  prepare_for_idle : BatchRoutine unit;
  (** [EagleDraftInput.create_idle_input(device, hidden_size, dtype, topk,
      capture_hidden_mode)] *)
  create_idle_input : Z -> Z -> CaptureHiddenMode -> IdleInput;
  prepare_extend_after_decode : Z -> Routine unit;
  get_model_worker_batch : Routine ModelWorkerBatch;
  init_new : ModelWorkerBatch -> Routine ForwardBatch;
  can_run : ForwardBatch -> Store -> bool;
  replay : ForwardBatch -> Routine LogitsProcessorOutput;
  init_forward_metadata : ForwardBatch -> Routine unit;
  forward : ForwardBatch -> bool -> Routine LogitsProcessorOutput;
  softmax : list float -> list float;
  fast_topk : list (list float) -> Z -> list (list float) * list (list Z);
}.

Section Routine.
Variable X : Externals.
Variable self : Worker.

Definition capture_for_decode
    (logits_output : LogitsProcessorOutput) (draft_input : sid)
  : M Store unit :=
  let probs := map (softmax X) (next_token_logits logits_output) in
  let '(p, i) := fast_topk X probs (topk self) in
  update_spec draft_input (with_topk (Some p) (Some i)) ;;
  update_spec draft_input (with_di_hidden_states (hidden_states logits_output)).

(** [batch = batch.copy(); batch.prepare_for_idle();
    batch.spec_info = EagleDraftInput.create_idle_input(...)] *)
Definition make_idle_sub_batch (batch : bid) : M Store bid :=
  do st <- get ;
  do batch <- new_batch (copy_fields X st batch) ;
  call_batch batch (prepare_for_idle X) ;;
  let hidden_size :=
    if is_eagle3 self then hidden_size self * 3 else hidden_size self in
  let idle := create_idle_input X hidden_size (topk self) LAST in
  do al <- new_tensor (idle_accept_length idle) ;
  do vi <- new_tensor (idle_verified_id idle) ;
  do s <- new_spec (DraftInput
            {| accept_length := al; verified_id := vi;
               num_tokens_per_batch := idle_num_tokens_per_batch idle;
               num_tokens_for_logprob_per_batch :=
                 idle_num_tokens_for_logprob_per_batch idle;
               capture_hidden_mode := idle_capture_hidden_mode idle;
               topk_p := idle_topk_p idle;
               topk_index := idle_topk_index idle;
               di_hidden_states := idle_hidden_states idle |}) ;
  update_batch batch (with_spec_info s) ;;
  ret batch.

(** From [batch.spec_info.num_tokens_per_batch = ...] to
    [self._detect_nan_if_needed(logits_output)]. *)
Definition run_draft_extend (batch : bid) : M Store unit :=
  update_batch_spec batch
    (with_num_tokens_per_batch (speculative_num_steps self + 1)) ;;
  update_batch_spec batch (with_num_tokens_for_logprob_per_batch 1) ;;
  call batch (prepare_extend_after_decode X (speculative_num_steps self)) ;;
  do bo <- get_batch batch ;
  update_batch batch
    (with_forward_mode
       (if negb (is_idle (forward_mode bo)) then DRAFT_EXTEND else IDLE)) ;;
  update_batch batch (with_return_hidden_states false) ;;
  do model_worker_batch <- call batch (get_model_worker_batch X) ;
  assert (CaptureHiddenMode_eqb
            (mwb_capture_hidden_mode model_worker_batch) LAST) ;;
  do forward_batch <- call batch (init_new X model_worker_batch) ;
  do forward_batch <-
    match fb_seq_lens_cpu forward_batch with
    | Some cpu => ret (with_fb_seq_lens_sum (Tensor.sum cpu) forward_batch)
    | None =>
        do bo <- get_batch batch ;
        do c <- read_tensor (seq_lens bo) ;
        ret (with_fb_seq_lens_sum (Tensor.sum c) forward_batch)
    end ;
  (* Run *)
  do st <- get ;
  let can_cuda_graph :=
    has_cuda_graph_runner_for_draft_extend self
    && can_run X forward_batch st in
  do logits_output <-
    (if can_cuda_graph then
       do logits_output <- call batch (replay X forward_batch) ;
       update_spec (fb_spec_info forward_batch)
         (with_topk (lo_topk_p logits_output) (lo_topk_index logits_output)) ;;
       update_spec (fb_spec_info forward_batch)
         (with_di_hidden_states (hidden_states logits_output)) ;;
       ret logits_output
     else
       let forward_batch := with_fb_can_run_dp_cuda_graph false forward_batch in
       (if negb (is_idle (fb_forward_mode forward_batch))
        then call batch (init_forward_metadata X forward_batch)
        else ret tt) ;;
       do logits_output <- call batch (forward X forward_batch true) ;
       capture_for_decode logits_output (fb_spec_info forward_batch) ;;
       ret logits_output) ;
  lift (_detect_nan_if_needed (enable_nan_detection self) logits_output).

(** The block under [# Restore backup.] *)
Definition restore_backup
    (batch : bid) (input_is_idle : bool)
    (seq_lens_backup req_pool_indices_backup accept_length_backup : loc)
    (return_logprob_backup : bool) : M Store unit :=
  update_batch batch
    (with_forward_mode (if negb input_is_idle then DECODE else IDLE)) ;;
  update_batch batch (with_seq_lens seq_lens_backup) ;;
  update_batch batch (with_req_pool_indices req_pool_indices_backup) ;;
  update_batch_spec batch (with_accept_length accept_length_backup) ;;
  update_batch batch (with_return_logprob return_logprob_backup).

Definition forward_draft_extend_after_decode (batch : bid) : M Store unit :=
  do bo <- get_batch batch ;
  (* assert isinstance(batch.spec_info, EagleDraftInput) *)
  do st <- get ;
  assert (match specs st !! spec_info bo with
          | Some (DraftInput _) => true
          | _ => false
          end) ;;
  (* Backup fields that will be modified in-place *)
  do seq_lens_backup <- clone (seq_lens bo) ;
  let req_pool_indices_backup := req_pool_indices bo in
  do di <- get_draft_input (spec_info bo) ;
  let accept_length_backup := accept_length di in
  let return_logprob_backup := return_logprob bo in
  let input_is_idle := is_idle (forward_mode bo) in
  do batch <-
    (if negb input_is_idle then
       do vid <- read_tensor (verified_id di) ;
       if Nat.eqb (length vid) 0
       then make_idle_sub_batch batch
       else ret batch
     else ret batch) ;
  run_draft_extend batch ;;
  restore_backup batch input_is_idle seq_lens_backup
    req_pool_indices_backup accept_length_backup return_logprob_backup.

End Routine.

(** *** Reading a batch *)

Definition batch_of (st : Store) (b : bid) : option BatchObj := batches st !! b.

Definition draft_input_of (st : Store) (b : bid) : option DraftInputObj :=
  match batches st !! b with
  | Some bo =>
      match specs st !! spec_info bo with
      | Some (DraftInput d) => Some d
      | _ => None
      end
  | None => None
  end.

(** The contents of the tensors that the four fields are bound to. *)
Definition seq_lens_value (st : Store) (b : bid) : option (list Z) :=
  bo ← batch_of st b ; tensors st !! seq_lens bo.
Definition req_pool_indices_value (st : Store) (b : bid) : option (list Z) :=
  bo ← batch_of st b ; tensors st !! req_pool_indices bo.
Definition accept_length_value (st : Store) (b : bid) : option (list Z) :=
  d ← draft_input_of st b ; tensors st !! accept_length d.
Definition return_logprob_value (st : Store) (b : bid) : option bool :=
  return_logprob <$> batch_of st b.

(** No field names a tensor or a draft input that does not exist. *)
Definition batch_wf (st : Store) (bo : BatchObj) : Prop :=
  (seq_lens bo < length (tensors st))%nat /\
  (req_pool_indices bo < length (tensors st))%nat /\
  (spec_info bo < length (specs st))%nat.

Definition spec_wf (st : Store) (o : SpecObj) : Prop :=
  match o with
  | DraftInput d =>
      (accept_length d < length (tensors st))%nat /\
      (verified_id d < length (tensors st))%nat
  | VerifyInput => True
  end.

Definition store_wf (st : Store) : Prop :=
  Forall (batch_wf st) (batches st) /\ Forall (spec_wf st) (specs st).

(** Whether the call folds the batch into an idle sub-batch: the input is
    not idle and carries no verified id. *)
Definition folds_into_idle_sub_batch (st : Store) (b : bid) : bool :=
  match batch_of st b, draft_input_of st b with
  | Some bo, Some d =>
      negb (is_idle (forward_mode bo))
      && match tensors st !! verified_id d with
         | Some vid => Nat.eqb (length vid) 0
         | None => false
         end
  | _, _ => false
  end.

(** An update of a draft input that rebinds none of its tensors. *)
Definition plain_update (g : DraftInputObj -> DraftInputObj) : Prop :=
  forall d, accept_length (g d) = accept_length d /\
            verified_id (g d) = verified_id d.

(** A property of the store that a computation keeps. *)
Definition preserves {X : Type} (P : Store -> Prop) (m : M Store X) : Prop :=
  forall st, P st -> P (snd (m st)).

(** What a call may have done to the tensors that existed at [st0]: tensors
    are only added, and an old tensor holds what it held unless it is among
    the tensors [ws] written in place since. *)
Definition frame_from (st0 st : Store) : Prop :=
  exists ws,
    written st = ws ++ written st0 /\
    (length (tensors st0) <= length (tensors st))%nat /\
    forall l, (l < length (tensors st0))%nat -> l ∉ ws ->
              tensors st !! l = tensors st0 !! l.

(** Tensor [cl] holds [c] and no batch and no draft input is bound to it. *)
Definition isolated (cl : loc) (c : list Z) (st : Store) : Prop :=
  tensors st !! cl = Some c /\
  Forall (fun bo => seq_lens bo <> cl /\ req_pool_indices bo <> cl)
         (batches st) /\
  Forall (fun o => match o with
                   | DraftInput d => accept_length d <> cl /\ verified_id d <> cl
                   | VerifyInput => True
                   end)
         (specs st).

(** Batch [b] is bound to the draft input [s]. *)
Definition bound_to (b : bid) (s : sid) (st : Store) : Prop :=
  (exists bo, batches st !! b = Some bo /\ spec_info bo = s) /\
  (exists d, specs st !! s = Some (DraftInput d)).

(** The caller's batch [b0] is as it was, its draft input [s0] is still
    bound to the tensor [a0], and the batch [b'] being worked on is bound
    to another draft input. *)
Definition caller_untouched
    (b0 : bid) (bo0 : BatchObj) (s0 : sid) (a0 : loc) (b' : bid) (st : Store)
  : Prop :=
  batches st !! b0 = Some bo0 /\
  (exists d, specs st !! s0 = Some (DraftInput d) /\ accept_length d = a0) /\
  (forall bo, batches st !! b' = Some bo -> spec_info bo <> s0).

End DraftExtend.

(** ** The entry point: [forward_batch_speculative_generation] *)

Module SpeculativeGeneration.

(** The stages of one call, and the draft tensor-parallel group being
    entered and left, in program order. *)
Inductive Stage : Type :=
| StageTargetExtend
| StageDraftExtend
| StageDraft
| StageVerify
| StageDraftExtendAfterDecode
| EnterDraftTp
| ExitDraftTp.

Record VerifyOutput : Type := {
  verified_id : list Z;
  accept_length_per_req_cpu : list Z;
}.

(** The stages are routines over a world [W]: the batch and whatever else
    they reach.  [VerifyInput] is what [draft] hands to [verify]. *)
Record Stages (W VerifyInput : Type) : Type := {
  (** [batch.forward_mode], [ForwardMode.is_extend] and
      [batch.is_extend_in_batch] *)
  batch_forward_mode : W -> ForwardMode;
  is_extend : ForwardMode -> bool;
  is_extend_in_batch : W -> bool;
  (** [batch.spec_info.verified_id.shape[0]] *)
  verified_id_shape0 : W -> Z;
  forward_target_extend :
    M W (LogitsProcessorOutput * list Z * Z * option (list Z));
  forward_draft_extend :
    list (list float) -> list Z -> option (list Z) -> M W unit;
  draft : M W VerifyInput;
  verify : VerifyInput -> M W (LogitsProcessorOutput * VerifyOutput * Z * bool);
  forward_draft_extend_after_decode : M W unit;
}.
Arguments batch_forward_mode {W VerifyInput} _.
Arguments is_extend {W VerifyInput} _.
Arguments is_extend_in_batch {W VerifyInput} _.
Arguments verified_id_shape0 {W VerifyInput} _.
Arguments forward_target_extend {W VerifyInput} _.
Arguments forward_draft_extend {W VerifyInput} _.
Arguments draft {W VerifyInput} _.
Arguments verify {W VerifyInput} _.
Arguments forward_draft_extend_after_decode {W VerifyInput} _.

Section Forward.
Context {W VerifyInput : Type}.
Variable T : Stages W VerifyInput.
Variable enable_dp_attention : bool.

(** The world together with the record of the stages run so far, which
    no stage can reach. *)
Definition State : Type := W * list Stage.

Definition mark (s : Stage) : M State unit :=
  modify (fun st => (fst st, snd st ++ [s])).

Definition stage {A : Type} (s : Stage) (m : M W A) : M State A :=
  mark s ;;
  fun st => let '(r, w) := m (fst st) in (r, (w, snd st)).

(** [with self.draft_tp_context(self.draft_model_runner.tp_group):]
    the draft group is entered only with DP attention, and is left on
    every exit of the block. *)
Definition draft_tp_context {A : Type} (m : M State A) : M State A :=
  if enable_dp_attention then
    mark EnterDraftTp ;;
    fun st => let '(r, st') := m st in
              (r, (fst st', snd st' ++ [ExitDraftTp]))
  else m.

(** [sum(verify_output.accept_length_per_req_cpu)] *)
Definition py_sum (l : list Z) : Z := fold_right Z.add 0 l.

Definition forward_batch_speculative_generation
  : M State (LogitsProcessorOutput * list Z * Z * Z * bool) :=
  do st <- get ;
  if is_extend T (batch_forward_mode T (fst st))
     || is_extend_in_batch T (fst st) then
    do '(logits_output, next_token_ids, bid, seq_lens_cpu) <-
      stage StageTargetExtend (forward_target_extend T) ;
    draft_tp_context
      (stage StageDraftExtend
         (forward_draft_extend T (hidden_states logits_output)
            next_token_ids seq_lens_cpu)) ;;
    ret (logits_output, next_token_ids, bid, 0, false)
  else
    do spec_info <- draft_tp_context (stage StageDraft (draft T)) ;
    do '(logits_output, verify_output, bid, can_run_cuda_graph) <-
      stage StageVerify (verify T spec_info) ;
    draft_tp_context
      (do st <- get ;
       if enable_dp_attention || (0 <? verified_id_shape0 T (fst st)) then
         (* decode is not finished *)
         stage StageDraftExtendAfterDecode
           (forward_draft_extend_after_decode T)
       else ret tt) ;;
    ret (logits_output,
         verified_id verify_output,
         bid,
         py_sum (accept_length_per_req_cpu verify_output),
         can_run_cuda_graph).

(** The model stages among the recorded events. *)
Definition is_model_stage (s : Stage) : bool :=
  match s with
  | EnterDraftTp | ExitDraftTp => false
  | _ => true
  end.

Definition stages_run (st : State) : list Stage :=
  filter (fun s => is_model_stage s = true) (snd st).

End Forward.

End SpeculativeGeneration.

(** ** Concrete batches

    Inputs on which the routines are run in the examples below. *)

Module Scenario.
Import DraftPreprocess.

(** One request with a 7-token prefix; page size 8, top-k 2, 3 steps. *)
Definition paged_worker : Worker :=
  {| page_size := 8; topk := 2; speculative_num_steps := 3;
     w_num_new_pages_per_topk := []; w_extend_lens := [] |}.

Definition paged_batch : Batch :=
  {| reqs := [0]; req_pool_indices := [0]; seq_lens := [7];
     req_to_token := [[100; 101; 102; 103; 104; 105; 106] ++ replicate 25 0];
     out_cache_loc := []; seq_lens_sum := 0; return_hidden_states := true;
     verified_id := [42]; positions := [];
     penalizer_is_required := false; penalizer_cumulated := [] |}.

(** Two requests with 3- and 5-token prefixes; page size 1, top-k 2,
    2 steps. *)
Definition page1_worker : Worker :=
  {| page_size := 1; topk := 2; speculative_num_steps := 2;
     w_num_new_pages_per_topk := []; w_extend_lens := [] |}.

Definition page1_batch : Batch :=
  {| reqs := [0; 1]; req_pool_indices := [0; 1]; seq_lens := [3; 5];
     req_to_token := [[1; 2; 3] ++ replicate 7 0;
                      [4; 5; 6; 7; 8] ++ replicate 5 0];
     out_cache_loc := []; seq_lens_sum := 0; return_hidden_states := true;
     verified_id := [42; 43]; positions := [];
     penalizer_is_required := true; penalizer_cumulated := [] |}.

(** Free slots [from, from + n). *)
Definition free_slots (from : Z) (n : nat) : KVPool.astate KVPool.FreeList :=
  map (fun i => from + Z.of_nat i) (seq 0 n).

(** A decode step over two requests of which [left] are still running
    once the target has verified the drafts: the world is the number of
    verified ids the batch carries. *)
Definition no_logits : LogitsProcessorOutput :=
  {| next_token_logits := []; hidden_states := [];
     lo_topk_p := None; lo_topk_index := None;
     next_token_logprobs := None;
     next_token_top_logprobs_val := None;
     next_token_top_logprobs_idx := None;
     next_token_token_ids_logprobs_val := None;
     next_token_token_ids_logprobs_idx := None |}.

Definition decode_stages (left : Z) : SpeculativeGeneration.Stages Z unit :=
  {| SpeculativeGeneration.batch_forward_mode := fun _ => DECODE;
     SpeculativeGeneration.is_extend :=
       fun m => match m with
                | EXTEND | MIXED | DRAFT_EXTEND => true
                | _ => false
                end;
     SpeculativeGeneration.is_extend_in_batch := fun _ => false;
     SpeculativeGeneration.verified_id_shape0 := fun w => w;
     SpeculativeGeneration.forward_target_extend :=
       ret (no_logits, [], 0, None);
     SpeculativeGeneration.forward_draft_extend := fun _ _ _ => ret tt;
     SpeculativeGeneration.draft := ret tt;
     SpeculativeGeneration.verify :=
       fun _ =>
         put left ;;
         ret (no_logits,
              {| SpeculativeGeneration.verified_id := replicate (Z.to_nat left) 7;
                 SpeculativeGeneration.accept_length_per_req_cpu :=
                   replicate (Z.to_nat left) 0 |},
              0, false);
     SpeculativeGeneration.forward_draft_extend_after_decode := ret tt |}.

(** A verify step over one request with a grammar.  The batch still
    carries the mask of the extend stage; the target forward yields logits
    for the two draft-tree nodes, the grammar yields a fresh mask, and the
    acceptance step accepts the root only. *)
Definition f0 : float := S754_zero false.
Definition f1 : float := S754_finite false 1 0.
Definition f2 : float := S754_finite false 1 1.

Definition stale_mask : Verifier.Mask := [[1; 1]; [1; 1]].
Definition fresh_mask : Verifier.Mask := [[1; 0]; [0; 1]].

Definition target_logits : LogitsProcessorOutput :=
  {| next_token_logits := [[f1; f2]; [f2; f0]];
     hidden_states := [[f0]; [f1]];
     lo_topk_p := None; lo_topk_index := None;
     next_token_logprobs := None;
     next_token_top_logprobs_val := None;
     next_token_top_logprobs_idx := None;
     next_token_token_ids_logprobs_val := None;
     next_token_token_ids_logprobs_idx := None |}.

Definition plain_req (wants_logprob : bool) : Verifier.Req :=
  {| Verifier.r_return_logprob := wants_logprob;
     Verifier.top_logprobs_num := 0;
     Verifier.output_token_logprobs_val := [];
     Verifier.output_token_logprobs_idx := [];
     Verifier.output_top_logprobs_val := [];
     Verifier.output_top_logprobs_idx := [] |}.

Definition draft_input0 : Verifier.EagleDraftInput :=
  {| Verifier.di_verified_id := [1];
     Verifier.di_accept_length := [0];
     Verifier.di_hidden_states := [] |}.

Definition grammar_env : Verifier.Env unit :=
  {| Verifier.batch :=
       {| Verifier.forward_mode := DECODE;
          Verifier.return_hidden_states := true;
          Verifier.spec_info := Verifier.SpecDraft draft_input0;
          Verifier.has_grammar := true;
          Verifier.sampling_info :=
            {| Verifier.vocab_mask := Some stale_mask;
               Verifier.vocab_size := 2;
               Verifier.temperatures := [f1] |};
          Verifier.return_logprob := false;
          Verifier.reqs := [plain_req false];
          Verifier.top_logprobs_nums := [0];
          Verifier.token_ids_logprobs := [None] |};
     Verifier.the_spec_info :=
       {| Verifier.draft_token := [1; 0];
          Verifier.retrive_next_token := [[1; -1]];
          Verifier.retrive_next_sibling := [[-1; -1]];
          Verifier.draft_token_num := 2;
          Verifier.vi_capture_hidden_mode := FULL;
          Verifier.vi_hidden_states := [];
          Verifier.grammar := Some 0;
          Verifier.seq_lens_cpu := None |};
     Verifier.logits_objs := [];
     Verifier.rest := tt |}.

Definition target_forward
  : Verifier.ModelWorkerBatch -> bool -> M (Verifier.Env unit) (nat * bool) :=
  fun _ _ e =>
    (Ok (length (Verifier.logits_objs e), false),
     {| Verifier.batch := Verifier.batch e;
        Verifier.the_spec_info := Verifier.the_spec_info e;
        Verifier.logits_objs := Verifier.logits_objs e ++ [target_logits];
        Verifier.rest := tt |}).

Definition accept_root
  : nat -> Z -> option Verifier.Mask ->
    M (Verifier.Env unit) Verifier.EagleVerifyOutput :=
  fun logits_output _ _ =>
    ret {| Verifier.draft_input := draft_input0;
           Verifier.vo_logits_output := logits_output;
           Verifier.verified_id := [1];
           Verifier.accept_length_per_req_cpu := [0];
           Verifier.accepted_indices := [0] |}.

(** Stand-ins for the float kernels: division by the temperature and
    [log_softmax] are left as the identity, and no top or per-id
    log-probabilities are produced. *)
Definition run_verify (e : Verifier.Env unit) :=
  Verifier.verify unit
    (fun x _ => x) (fun row => row) (fun _ _ => ([], [])) (fun _ _ => ([], []))
    true 1
    (fun _ => ret tt)
    (fun _ => ret {| Verifier.mwb_capture_hidden_mode := FULL;
                     Verifier.bid := 0 |})
    target_forward
    (fun _ _ _ _ _ => ret (Some fresh_mask))
    accept_root
    (Verifier.start unit e).

(** Log-probabilities for two requests after verification: request 0 had one
    draft token accepted (two tokens in all) and asked for log-probabilities,
    request 1 had none accepted (one token) and did not. *)
Definition logprob_env : Verifier.Env unit :=
  {| Verifier.batch :=
       {| Verifier.forward_mode := TARGET_VERIFY;
          Verifier.return_hidden_states := false;
          Verifier.spec_info := Verifier.SpecVerify;
          Verifier.has_grammar := false;
          Verifier.sampling_info :=
            {| Verifier.vocab_mask := None;
               Verifier.vocab_size := 2;
               Verifier.temperatures := [f1; f2] |};
          Verifier.return_logprob := true;
          Verifier.reqs := [plain_req true; plain_req false];
          Verifier.top_logprobs_nums := [0; 0];
          Verifier.token_ids_logprobs := [None; None] |};
     Verifier.the_spec_info :=
       {| Verifier.draft_token := [1; 0; 1; 1];
          Verifier.retrive_next_token := [[1; -1]; [1; -1]];
          Verifier.retrive_next_sibling := [[-1; -1]; [-1; -1]];
          Verifier.draft_token_num := 2;
          Verifier.vi_capture_hidden_mode := FULL;
          Verifier.vi_hidden_states := [];
          Verifier.grammar := None;
          Verifier.seq_lens_cpu := None |};
     Verifier.logits_objs :=
       [{| next_token_logits := [[f1; f2]; [f2; f0]; [f0; f1]];
           hidden_states := [[f0]; [f1]; [f2]];
           lo_topk_p := None; lo_topk_index := None;
           next_token_logprobs := None;
           next_token_top_logprobs_val := None;
           next_token_top_logprobs_idx := None;
           next_token_token_ids_logprobs_val := None;
           next_token_token_ids_logprobs_idx := None |}];
     Verifier.rest := tt |}.

Definition logprob_res : Verifier.EagleVerifyOutput :=
  {| Verifier.draft_input := draft_input0;
     Verifier.vo_logits_output := 0%nat;
     Verifier.verified_id := [1; 0; 1];
     Verifier.accept_length_per_req_cpu := [1; 0];
     Verifier.accepted_indices := [0; 1; 2] |}.

Definition run_add_logprob_values :=
  Verifier.add_logprob_values unit
    (fun x _ => x) (fun row => row) (fun _ _ => ([], [])) (fun _ _ => ([], []))
    logprob_res 0%nat logprob_env.

(** A decode batch of two requests (batch 0, bound to draft input 0):
    tensor 0 is [seq_lens], 1 is [req_pool_indices], 2 is [accept_length]
    and 3 is [verified_id]. *)
Definition extend_store : DraftExtend.Store :=
  {| DraftExtend.tensors := [[5; 9]; [0; 1]; [2; 1]; [11; 12]];
     DraftExtend.batches :=
       [{| DraftExtend.forward_mode := DECODE;
           DraftExtend.seq_lens := 0%nat;
           DraftExtend.req_pool_indices := 1%nat;
           DraftExtend.spec_info := 0%nat;
           DraftExtend.return_logprob := true;
           DraftExtend.return_hidden_states := true |}];
     DraftExtend.specs :=
       [DraftExtend.DraftInput
          {| DraftExtend.accept_length := 2%nat;
             DraftExtend.verified_id := 3%nat;
             DraftExtend.num_tokens_per_batch := 0;
             DraftExtend.num_tokens_for_logprob_per_batch := 0;
             DraftExtend.capture_hidden_mode := FULL;
             DraftExtend.topk_p := None;
             DraftExtend.topk_index := None;
             DraftExtend.di_hidden_states := [] |}];
     DraftExtend.written := [] |}.

Definition extend_worker : DraftExtend.Worker :=
  {| DraftExtend.topk := 2; DraftExtend.speculative_num_steps := 3;
     DraftExtend.enable_nan_detection := true;
     DraftExtend.is_eagle3 := false; DraftExtend.hidden_size := 4;
     DraftExtend.has_cuda_graph_runner_for_draft_extend := false |}.

(** Routines under which [prepare_extend_after_decode] binds [seq_lens] and
    [req_pool_indices] to the tensors of the draft extend, clears
    [return_logprob], and adds one to [accept_length] in place. *)
Definition extend_externals : DraftExtend.Externals :=
  {| DraftExtend.copy_fields := fun st b =>
       default
         {| DraftExtend.forward_mode := IDLE;
            DraftExtend.seq_lens := 0%nat;
            DraftExtend.req_pool_indices := 0%nat;
            DraftExtend.spec_info := 0%nat;
            DraftExtend.return_logprob := false;
            DraftExtend.return_hidden_states := false |}
         (DraftExtend.batches st !! b);
     DraftExtend.prepare_for_idle := fun _ =>
       ([DraftExtend.SetForwardMode IDLE;
         DraftExtend.RebindSeqLens [];
         DraftExtend.RebindReqPoolIndices []], Ok tt);
     DraftExtend.create_idle_input := fun _ _ chm =>
       {| DraftExtend.idle_accept_length := [];
          DraftExtend.idle_verified_id := [];
          DraftExtend.idle_num_tokens_per_batch := 1;
          DraftExtend.idle_num_tokens_for_logprob_per_batch := 1;
          DraftExtend.idle_capture_hidden_mode := chm;
          DraftExtend.idle_topk_p := None;
          DraftExtend.idle_topk_index := None;
          DraftExtend.idle_hidden_states := [] |};
     DraftExtend.prepare_extend_after_decode := fun _ _ =>
       ([DraftExtend.OnBatch (DraftExtend.RebindSeqLens [8; 11]);
         DraftExtend.OnBatch (DraftExtend.RebindReqPoolIndices [0; 1]);
         DraftExtend.OnBatch (DraftExtend.SetReturnLogprob false);
         DraftExtend.OnBatch (DraftExtend.SetReturnHiddenStates false);
         DraftExtend.OnSpec (DraftExtend.SetCaptureHiddenMode LAST);
         DraftExtend.OnSpec
           (DraftExtend.WriteAcceptLength (map (fun x => x + 1)))],
        Ok tt);
     DraftExtend.get_model_worker_batch := fun _ =>
       ([], Ok {| DraftExtend.mwb_capture_hidden_mode := LAST |});
     DraftExtend.init_new := fun _ _ =>
       ([], Ok {| DraftExtend.fb_forward_mode := DRAFT_EXTEND;
                  DraftExtend.fb_seq_lens_cpu := None;
                  DraftExtend.fb_spec_info := 0%nat;
                  DraftExtend.fb_seq_lens_sum := 0;
                  DraftExtend.fb_can_run_dp_cuda_graph := true |});
     DraftExtend.can_run := fun _ _ => false;
     DraftExtend.replay := fun _ _ => ([], Ok no_logits);
     DraftExtend.init_forward_metadata := fun _ _ => ([], Ok tt);
     DraftExtend.forward := fun _ _ _ => ([], Ok no_logits);
     DraftExtend.softmax := fun row => row;
     DraftExtend.fast_topk := fun _ _ => ([], []) |}.

Definition run_forward_draft_extend_after_decode :=
  DraftExtend.forward_draft_extend_after_decode
    extend_externals extend_worker 0%nat extend_store.

End Scenario.

(** * Properties *)

(** ** Integer tensors *)

Lemma wrap64_id (z : Z) : Tensor.in_int64 z -> Tensor.wrap64 z = z.
Proof.
  unfold Tensor.in_int64, Tensor.wrap64. intros H.
  rewrite Z.mod_small by lia. lia.
Qed.

Lemma ceil_div_floor (a b : Z) :
  0 < b -> DraftCacheLayout.ceil_div a b = (a + b - 1) / b.
Proof.
  intros Hb. unfold DraftCacheLayout.ceil_div.
  pose proof (Z.div_mod (a + b - 1) b ltac:(lia)) as Hdm.
  pose proof (Z.mod_pos_bound (a + b - 1) b Hb) as Hr.
  set (q := (a + b - 1) / b) in *.
  assert (H : (- a) / b = - q).
  { symmetry. apply (Z.div_unique_pos (- a) b (- q) (b * q - a)); lia. }
  lia.
Qed.

(** [ceil_div a b] is the least number of [b]-sized pages that hold [a]
    slots. *)
Lemma ceil_div_least (a b : Z) :
  0 < b ->
  a <= DraftCacheLayout.ceil_div a b * b /\
  (DraftCacheLayout.ceil_div a b - 1) * b < a.
Proof.
  intros Hb. rewrite ceil_div_floor by assumption.
  pose proof (Z.div_mod (a + b - 1) b ltac:(lia)) as Hdm.
  pose proof (Z.mod_pos_bound (a + b - 1) b Hb) as Hr.
  nia.
Qed.

(** ** Draft cache layout *)

Section LayoutFacts.
Variables S K P : Z.
Hypothesis HP : 1 < P.
Hypothesis HK : 1 < K.
Hypothesis HS : 0 <= S.

Abbreviation layout_in_range := (DraftCacheLayout.layout_in_range S K P).

Lemma num_new_pages_bounds (prefix : Z) :
  layout_in_range prefix ->
  0 <= (prefix mod P + S + P - 1) / P /\
  (prefix mod P + S + P - 1) / P * P <= prefix mod P + S + P - 1 /\
  0 <= prefix mod P < P /\ prefix mod P <= prefix /\
  0 <= prefix / P /\ prefix / P * P <= prefix.
Proof.
  intros [H0 Hb].
  pose proof (Z.mod_pos_bound prefix P ltac:(lia)) as Hm.
  pose proof (Z.div_mod prefix P ltac:(lia)) as Hdm.
  pose proof (Z.div_mod (prefix mod P + S + P - 1) P ltac:(lia)) as Hdm'.
  pose proof (Z.mod_pos_bound (prefix mod P + S + P - 1) P ltac:(lia)) as Hm'.
  assert (0 <= prefix / P) by (apply Z.div_pos; lia).
  assert (0 <= (prefix mod P + S + P - 1) / P) by (apply Z.div_pos; lia).
  repeat split; try lia; nia.
Qed.

Lemma num_new_pages_elem (prefix : Z) :
  layout_in_range prefix ->
  Tensor.wrap64
    (Tensor.wrap64
       (Tensor.wrap64
          (Tensor.wrap64 (Tensor.wrap64 (prefix mod P) + S) + P) - 1) / P)
  = DraftCacheLayout.spec_num_new_pages prefix S P.
Proof.
  intros Hr. pose proof (num_new_pages_bounds prefix Hr) as (Hq & Hqp & Hm & Hmp & _ & _).
  destruct Hr as [H0 Hb].
  unfold DraftCacheLayout.spec_num_new_pages.
  rewrite ceil_div_floor by lia.
  assert (Hbig : prefix + S + P < 2 ^ 63) by nia.
  rewrite (wrap64_id (prefix mod P)) by (unfold Tensor.in_int64; lia).
  rewrite (wrap64_id (prefix mod P + S)) by (unfold Tensor.in_int64; lia).
  rewrite (wrap64_id (prefix mod P + S + P)) by (unfold Tensor.in_int64; lia).
  rewrite (wrap64_id (prefix mod P + S + P - 1)) by (unfold Tensor.in_int64; lia).
  rewrite wrap64_id; [reflexivity|].
  unfold Tensor.in_int64. nia.
Qed.

Lemma new_seq_len_elem (prefix : Z) :
  layout_in_range prefix ->
  Tensor.wrap64
    (Tensor.wrap64 (Tensor.wrap64 (prefix / P) * P)
     + Tensor.wrap64 (DraftCacheLayout.spec_num_new_pages prefix S P * (P * K)))
  = DraftCacheLayout.spec_new_seq_len prefix S K P
  /\ Tensor.in_int64 (DraftCacheLayout.spec_new_seq_len prefix S K P - prefix).
Proof.
  intros Hr. pose proof (num_new_pages_bounds prefix Hr) as (Hq & Hqp & Hm & Hmp & Hd & Hdp).
  destruct Hr as [H0 Hb].
  unfold DraftCacheLayout.spec_new_seq_len, DraftCacheLayout.spec_num_new_pages.
  rewrite ceil_div_floor by lia.
  set (n := (prefix mod P + S + P - 1) / P) in *.
  assert (Hbig : prefix + S + P < 2 ^ 63) by nia.
  assert (HnPK : 0 <= n * (P * K) <= (prefix + S + P) * K) by nia.
  rewrite (wrap64_id (prefix / P)) by (unfold Tensor.in_int64; nia).
  rewrite (wrap64_id (prefix / P * P)) by (unfold Tensor.in_int64; nia).
  rewrite (wrap64_id (n * (P * K))) by (unfold Tensor.in_int64; nia).
  rewrite wrap64_id by (unfold Tensor.in_int64; nia).
  split; [ring|]. unfold Tensor.in_int64. nia.
Qed.

End LayoutFacts.

(** ** KV-slot allocator *)

Lemma FreeList_lawful : KVPool.Lawful KVPool.FreeList.
Proof.
  assert (Hlen : forall n (free slots rest : list Z),
             KVPool.free_list_alloc n free = Some (slots, rest) ->
             Z.of_nat (length slots) = n).
  { intros n free slots rest. unfold KVPool.free_list_alloc.
    destruct (0 <=? n) eqn:H0; destruct (n <=? Z.of_nat (length free)) eqn:H1;
      simpl; try discriminate.
    intros [= <- <-]. rewrite length_take. lia. }
  split; simpl.
  - reflexivity.
  - intros n s slots s'. apply Hlen.
  - intros _ _ _ n s slots s'. apply Hlen.
Qed.

(** ** Draft preprocessing *)

Section PreprocessFacts.
Import KVPool DraftPreprocess.

Variable A : Allocator.
Variable get_last_loc : list (list Z) -> list Z -> list Z -> list Z.
Variable next_power_of_2 : Z -> Z.
Variable assign_draft_cache_locs : Z -> AssignArgs -> list (list Z) * list Z.

Abbreviation run self batch s :=
  (_draft_preprocess_decode A get_last_loc next_power_of_2
     assign_draft_cache_locs self batch (fresh_pool s)).
Abbreviation requested_call := (requested_call get_last_loc).
Abbreviation allocation := (allocation A get_last_loc).

(** The routine makes one allocation call; it raises when the allocator is
    exhausted, and otherwise hands the slots to the kernel, restores the
    allocator and returns. *)
Lemma preprocess_run (self : Worker) (batch : Batch) (s : astate A) :
  match allocation self batch s with
  | None =>
      is_ok (fst (run self batch s)) = false /\
      snd (run self batch s) =
        {| pool_state := s; pool_calls := [requested_call self batch] |}
  | Some (slots, s') =>
      snd (run self batch s) =
        {| pool_state := restore_state A (backup_state A s) s';
           pool_calls := [requested_call self batch; CallRestoreState] |} /\
      exists self' batch' args,
        fst (run self batch s) = Ok (self', batch') /\
        a_out_cache_loc args = slots /\
        a_req_to_token args = req_to_token batch /\
        req_to_token batch' =
          fst (assign_draft_cache_locs (batch_size batch) args) /\
        out_cache_loc batch' =
          (if (1 <? page_size self) && (1 <? topk self)
           then slice_to
                  (snd (assign_draft_cache_locs (batch_size batch) args))
                  (batch_size batch * topk self * speculative_num_steps self)
           else snd (assign_draft_cache_locs (batch_size batch) args))
  end.
Proof.
  unfold allocation, requested_call, _draft_preprocess_decode.
  destruct (penalizer_is_required batch); cbn [seq_lens req_to_token
    req_pool_indices cumulate_output_tokens];
    destruct (page_size self =? 1) eqn:Hp;
    try destruct (topk self =? 1) eqn:Hk;
    cbv beta iota zeta delta [bind alloc_token_slots
      alloc_paged_token_slots_extend record_call set_pool_state restore
      modify get ret raise fresh_pool]; simpl;
    match goal with
    | |- context [alloc A ?n s] => destruct (alloc A n s) as [[slots s']|]
    | |- context [alloc_extend A ?p ?q ?l ?n s] =>
        destruct (alloc_extend A p q l n s) as [[slots s']|]
    end; simpl;
    try (split; reflexivity);
    match goal with
    | |- context [assign_draft_cache_locs ?g ?a] =>
        destruct (assign_draft_cache_locs g a) as [t o] eqn:E;
        simpl; split; [reflexivity|];
        eexists _, _, a; rewrite E; simpl; repeat split; reflexivity
    end.
Qed.

End PreprocessFacts.

Lemma zip_with_map_same {A B C D : Type}
    (f : B -> C -> D) (g : A -> B) (h : A -> C) (l : list A) :
  zip_with f (map g l) (map h l) = map (fun x => f (g x) (h x)) l.
Proof. induction l as [|x l IH]; simpl; [reflexivity | now rewrite IH]. Qed.

Lemma map_ext_Forall_Z {B : Type} (P : Z -> Prop) (f g : Z -> B) (l : list Z) :
  (forall x, P x -> f x = g x) -> Forall P l -> map f l = map g l.
Proof.
  intros Hfg Hl. induction Hl as [|x l Hx Hl IH]; simpl; [reflexivity|].
  now rewrite Hfg, IH.
Qed.

(** The paged top-k layout computes, request by request, what the
    specification prescribes. *)
Lemma large_top_k_layout
    (get_last_loc : list (list Z) -> list Z -> list Z -> list Z)
    (req_to_token : list (list Z)) (req_pool_indices seq_lens : list Z)
    (S K P : Z) :
  1 < P -> 1 < K -> 0 <= S ->
  Forall (DraftCacheLayout.layout_in_range S K P) seq_lens ->
  let r := DraftCacheLayout.get_last_loc_large_page_size_large_top_k
             get_last_loc req_to_token req_pool_indices seq_lens S K P in
  DraftCacheLayout.prefix_lens r = seq_lens /\
  DraftCacheLayout.last_page_lens seq_lens P
    = map (fun prefix => prefix mod P) seq_lens /\
  DraftCacheLayout.num_new_pages_per_topk r
    = map (fun prefix => DraftCacheLayout.spec_num_new_pages prefix S P) seq_lens /\
  DraftCacheLayout.new_seq_lens r
    = map (fun prefix => DraftCacheLayout.spec_new_seq_len prefix S K P) seq_lens /\
  DraftCacheLayout.extend_lens r
    = map (fun prefix => DraftCacheLayout.spec_extend_len prefix S K P) seq_lens.
Proof.
  intros HP HK HS Hr r.
  assert (Hlast : DraftCacheLayout.last_page_lens seq_lens P
                  = map (fun prefix => prefix mod P) seq_lens).
  { unfold DraftCacheLayout.last_page_lens, Tensor.mod_s.
    apply map_ext_Forall_Z with (P := DraftCacheLayout.layout_in_range S K P);
      [|exact Hr].
    intros x [H0 Hb]. apply wrap64_id.
    pose proof (Z.mod_pos_bound x P ltac:(lia)).
    unfold Tensor.in_int64. nia. }
  assert (Hnum : DraftCacheLayout.num_new_pages_per_topk r
                 = map (fun prefix => DraftCacheLayout.spec_num_new_pages prefix S P)
                       seq_lens).
  { subst r. cbn [DraftCacheLayout.get_last_loc_large_page_size_large_top_k
                    DraftCacheLayout.num_new_pages_per_topk].
    unfold DraftCacheLayout.last_page_lens, Tensor.floordiv_s, Tensor.sub_s,
      Tensor.add_s, Tensor.mod_s.
    rewrite !map_map.
    apply map_ext_Forall_Z with (P := DraftCacheLayout.layout_in_range S K P);
      [|exact Hr].
    intros x Hx. eapply num_new_pages_elem; eassumption. }
  assert (Hnew : DraftCacheLayout.new_seq_lens r
                 = map (fun prefix => DraftCacheLayout.spec_new_seq_len prefix S K P)
                       seq_lens).
  { pose proof Hnum as Hnum'. subst r.
    cbn [DraftCacheLayout.get_last_loc_large_page_size_large_top_k
           DraftCacheLayout.num_new_pages_per_topk
           DraftCacheLayout.new_seq_lens] in *.
    rewrite Hnum'. unfold Tensor.add, Tensor.mul_s, Tensor.floordiv_s.
    rewrite !map_map, zip_with_map_same.
    apply map_ext_Forall_Z with (P := DraftCacheLayout.layout_in_range S K P);
      [|exact Hr].
    intros x Hx. eapply new_seq_len_elem; eassumption. }
  repeat split; try assumption.
  pose proof Hnew as Hnew'. subst r.
  cbn [DraftCacheLayout.get_last_loc_large_page_size_large_top_k
         DraftCacheLayout.new_seq_lens DraftCacheLayout.extend_lens] in *.
  rewrite Hnew'. unfold Tensor.sub.
  rewrite <- (map_id seq_lens) at 2. rewrite zip_with_map_same.
  apply map_ext_Forall_Z with (P := DraftCacheLayout.layout_in_range S K P);
    [|exact Hr].
  intros x Hx. apply wrap64_id. unfold DraftCacheLayout.spec_extend_len.
  eapply new_seq_len_elem; eassumption.
Qed.

(** C1.  With page size [P > 1] and top-k [K > 1] the draft cache layout
    computes for every request, from its prefix length [prefix = seq_len],
    [last_page_lens = prefix mod P],
    [num_new_pages_per_topk = ceil((last_page_lens + S) / P)],
    [new_seq_lens = floor(prefix / P) * P + num_new_pages_per_topk * P * K]
    and [extend_lens = new_seq_lens - prefix]; and draft preprocessing asks
    the allocator for the sum of the extend lengths.  Prefix lengths are
    taken small enough for the int64 arithmetic not to wrap. *)
Theorem draft_cache_layout_large_top_k
    (A : KVPool.Allocator)
    (get_last_loc : list (list Z) -> list Z -> list Z -> list Z)
    (next_power_of_2 : Z -> Z)
    (assign_draft_cache_locs :
       Z -> DraftPreprocess.AssignArgs -> list (list Z) * list Z)
    (self : DraftPreprocess.Worker) (batch : DraftPreprocess.Batch)
    (s : KVPool.astate A) :
  let S := DraftPreprocess.speculative_num_steps self in
  let K := DraftPreprocess.topk self in
  let P := DraftPreprocess.page_size self in
  let seq_lens := DraftPreprocess.seq_lens batch in
  1 < P -> 1 < K -> 0 <= S ->
  Forall (DraftCacheLayout.layout_in_range S K P) seq_lens ->
  let r := DraftCacheLayout.get_last_loc_large_page_size_large_top_k
             get_last_loc (DraftPreprocess.req_to_token batch)
             (DraftPreprocess.req_pool_indices batch) seq_lens S K P in
  DraftCacheLayout.prefix_lens r = seq_lens /\
  DraftCacheLayout.last_page_lens seq_lens P
    = map (fun prefix => prefix mod P) seq_lens /\
  DraftCacheLayout.num_new_pages_per_topk r
    = map (fun prefix => DraftCacheLayout.ceil_div (prefix mod P + S) P) seq_lens /\
  DraftCacheLayout.new_seq_lens r
    = map (fun prefix =>
             prefix / P * P
             + DraftCacheLayout.ceil_div (prefix mod P + S) P * P * K) seq_lens /\
  DraftCacheLayout.extend_lens r
    = map (fun prefix =>
             prefix / P * P
             + DraftCacheLayout.ceil_div (prefix mod P + S) P * P * K
             - prefix) seq_lens /\
  hd_error
    (KVPool.pool_calls
       (snd (DraftPreprocess._draft_preprocess_decode A get_last_loc
               next_power_of_2 assign_draft_cache_locs self batch
               (DraftPreprocess.fresh_pool s))))
  = Some (KVPool.CallAllocPagedTokenSlotsExtend
            seq_lens
            (DraftCacheLayout.new_seq_lens r)
            (DraftCacheLayout.last_loc r)
            (Tensor.sum (DraftCacheLayout.extend_lens r))
            true).
Proof.
  intros S K P seq_lens HP HK HS Hr r.
  pose proof (large_top_k_layout get_last_loc
                (DraftPreprocess.req_to_token batch)
                (DraftPreprocess.req_pool_indices batch)
                seq_lens S K P HP HK HS Hr) as (H1 & H2 & H3 & H4 & H5).
  repeat split; try assumption.
  assert (Hcall :
            DraftPreprocess.requested_call get_last_loc self batch
            = KVPool.CallAllocPagedTokenSlotsExtend
                seq_lens (DraftCacheLayout.new_seq_lens r)
                (DraftCacheLayout.last_loc r)
                (Tensor.sum (DraftCacheLayout.extend_lens r)) true).
  { unfold DraftPreprocess.requested_call. fold S K P seq_lens.
    destruct (Z.eqb_spec P 1) as [E|_]; [lia|].
    destruct (Z.eqb_spec K 1) as [E|_]; [lia|].
    reflexivity. }
  pose proof (preprocess_run A get_last_loc next_power_of_2
                assign_draft_cache_locs self batch s) as Hrun.
  destruct (DraftPreprocess.allocation A get_last_loc self batch s)
    as [[slots s']|].
  - destruct Hrun as [-> _]. simpl. now rewrite Hcall.
  - destruct Hrun as [_ ->]. simpl. now rewrite Hcall.
Qed.

Lemma draft_cache_layout_large_top_k_witness :
  DraftCacheLayout.extend_lens
    (DraftCacheLayout.get_last_loc_large_page_size_large_top_k
       DraftCacheLayout.get_last_loc
       (DraftPreprocess.req_to_token Scenario.paged_batch) [0] [7] 3 2 8)
  = [25] /\
  hd_error
    (KVPool.pool_calls
       (snd (DraftPreprocess._draft_preprocess_decode KVPool.FreeList
               DraftCacheLayout.get_last_loc DraftPreprocess.next_power_of_2
               DraftPreprocess.assign_page1
               Scenario.paged_worker Scenario.paged_batch
               (DraftPreprocess.fresh_pool (Scenario.free_slots 200 64)))))
  = Some (KVPool.CallAllocPagedTokenSlotsExtend [7] [32] [106] 25 true).
Proof.
  pose proof (draft_cache_layout_large_top_k KVPool.FreeList
                DraftCacheLayout.get_last_loc DraftPreprocess.next_power_of_2
                DraftPreprocess.assign_page1
                Scenario.paged_worker Scenario.paged_batch
                (Scenario.free_slots 200 64)) as H.
  cbv zeta in H.
  specialize (H ltac:(simpl; lia) ltac:(simpl; lia) ltac:(simpl; lia)).
  assert (Hr : Forall (DraftCacheLayout.layout_in_range 3 2 8) [7]).
  { repeat constructor; simpl; lia. }
  specialize (H Hr).
  destruct H as (_ & _ & _ & Hnew & Hext & Hcall).
  split.
  - refine (eq_trans Hext _). vm_compute. reflexivity.
  - refine (eq_trans Hcall _). vm_compute. reflexivity.
Defined.

(** C1, the worked example.  For [prefix = 7], [K = 2], [S = 3], [P = 8] the
    last page holds 7 tokens, so [ceil((7 + 3) / 8) = 2] new pages are
    needed per branch: the new sequence length is 32 and the extend length,
    which is what the allocator is asked for, is 25 and not 9. *)
Lemma draft_cache_layout_example_is_25_not_9 :
  let r := DraftCacheLayout.get_last_loc_large_page_size_large_top_k
             DraftCacheLayout.get_last_loc
             (DraftPreprocess.req_to_token Scenario.paged_batch) [0] [7] 3 2 8 in
  DraftCacheLayout.num_new_pages_per_topk r = [2] /\
  DraftCacheLayout.new_seq_lens r = [32] /\
  DraftCacheLayout.extend_lens r = [25] /\
  DraftCacheLayout.extend_lens r <> [9] /\
  KVPool.pool_calls
    (snd (DraftPreprocess._draft_preprocess_decode KVPool.FreeList
            DraftCacheLayout.get_last_loc DraftPreprocess.next_power_of_2
            DraftPreprocess.assign_page1
            Scenario.paged_worker Scenario.paged_batch
            (DraftPreprocess.fresh_pool (Scenario.free_slots 200 64))))
  = [KVPool.CallAllocPagedTokenSlotsExtend [7] [32] [106] 25 true;
     KVPool.CallRestoreState].
Proof.
  cbv zeta. repeat split; try (vm_compute; reflexivity).
  vm_compute. discriminate.
Qed.

(** C5.  With page size 1, draft preprocessing makes exactly one allocation
    call, [alloc_token_slots(B * S * K, backup_state=True)], and when it
    returns the allocator has delivered exactly [B * S * K] slots. *)
Theorem draft_preprocess_page_size_1_allocation
    (A : KVPool.Allocator) (laws : KVPool.Lawful A)
    (get_last_loc : list (list Z) -> list Z -> list Z -> list Z)
    (next_power_of_2 : Z -> Z)
    (assign_draft_cache_locs :
       Z -> DraftPreprocess.AssignArgs -> list (list Z) * list Z)
    (self : DraftPreprocess.Worker) (batch : DraftPreprocess.Batch)
    (s : KVPool.astate A) :
  DraftPreprocess.page_size self = 1 ->
  let B := DraftPreprocess.batch_size batch in
  let S := DraftPreprocess.speculative_num_steps self in
  let K := DraftPreprocess.topk self in
  let run := DraftPreprocess._draft_preprocess_decode A get_last_loc
               next_power_of_2 assign_draft_cache_locs self batch
               (DraftPreprocess.fresh_pool s) in
  List.filter KVPool.is_alloc (KVPool.pool_calls (snd run))
    = [KVPool.CallAllocTokenSlots (B * S * K) true] /\
  (is_ok (fst run) = true ->
   exists slots s',
     KVPool.alloc A (B * S * K) s = Some (slots, s') /\
     Z.of_nat (length slots) = B * S * K).
Proof.
  intros HP B S K run.
  pose proof (preprocess_run A get_last_loc next_power_of_2
                assign_draft_cache_locs self batch s) as Hrun.
  fold run in Hrun.
  unfold DraftPreprocess.allocation in Hrun.
  assert (Hcall : DraftPreprocess.requested_call get_last_loc self batch
                  = KVPool.CallAllocTokenSlots (B * S * K) true).
  { unfold DraftPreprocess.requested_call. now rewrite HP. }
  rewrite Hcall in Hrun.
  destruct (KVPool.alloc A (B * S * K) s) as [[slots s']|] eqn:Ha.
  - destruct Hrun as [-> _]. split; [reflexivity|].
    intros _. exists slots, s'. split; [reflexivity|].
    eapply KVPool.alloc_length; eassumption.
  - destruct Hrun as [Hok ->]. split; [reflexivity|].
    rewrite Hok. discriminate.
Qed.

Lemma draft_preprocess_page_size_1_allocation_witness :
  let run := DraftPreprocess._draft_preprocess_decode KVPool.FreeList
               DraftCacheLayout.get_last_loc DraftPreprocess.next_power_of_2
               DraftPreprocess.assign_page1
               Scenario.page1_worker Scenario.page1_batch
               (DraftPreprocess.fresh_pool (Scenario.free_slots 10 20)) in
  DraftPreprocess.page_size Scenario.page1_worker = 1 /\
  List.filter KVPool.is_alloc (KVPool.pool_calls (snd run))
    = [KVPool.CallAllocTokenSlots 8 true] /\
  is_ok (fst run) = true.
Proof.
  cbv zeta. split; [reflexivity|].
  pose proof (draft_preprocess_page_size_1_allocation KVPool.FreeList
                FreeList_lawful DraftCacheLayout.get_last_loc
                DraftPreprocess.next_power_of_2 DraftPreprocess.assign_page1
                Scenario.page1_worker Scenario.page1_batch
                (Scenario.free_slots 10 20) eq_refl) as [H _].
  split.
  - refine (eq_trans H _). reflexivity.
  - vm_compute. reflexivity.
Defined.

(** C10.  Draft preprocessing leaves the allocator in the state it found it
    in.  Every allocation it makes asks for a backup of the allocator
    state; when it returns, its last allocator call is [restore_state] on
    that backup, while the slots it was given stay in [batch.out_cache_loc]
    and in the request-to-token table as the kernel left them there.  When
    the allocator is exhausted the routine raises with the allocator
    untouched. *)
Theorem draft_preprocess_restores_allocator
    (A : KVPool.Allocator) (laws : KVPool.Lawful A)
    (get_last_loc : list (list Z) -> list Z -> list Z -> list Z)
    (next_power_of_2 : Z -> Z)
    (assign_draft_cache_locs :
       Z -> DraftPreprocess.AssignArgs -> list (list Z) * list Z)
    (self : DraftPreprocess.Worker) (batch : DraftPreprocess.Batch)
    (s : KVPool.astate A) :
  let B := DraftPreprocess.batch_size batch in
  let run := DraftPreprocess._draft_preprocess_decode A get_last_loc
               next_power_of_2 assign_draft_cache_locs self batch
               (DraftPreprocess.fresh_pool s) in
  KVPool.pool_state (snd run) = s /\
  List.existsb KVPool.is_alloc_without_backup (KVPool.pool_calls (snd run))
    = false /\
  (is_ok (fst run) = true ->
   last (KVPool.pool_calls (snd run)) = Some KVPool.CallRestoreState /\
   exists self' batch' slots s' args,
     fst run = Ok (self', batch') /\
     DraftPreprocess.allocation A get_last_loc self batch s = Some (slots, s') /\
     DraftPreprocess.a_out_cache_loc args = slots /\
     DraftPreprocess.req_to_token batch'
       = fst (assign_draft_cache_locs B args) /\
     DraftPreprocess.out_cache_loc batch'
       = (if (1 <? DraftPreprocess.page_size self)
             && (1 <? DraftPreprocess.topk self)
          then DraftPreprocess.slice_to
                 (snd (assign_draft_cache_locs B args))
                 (B * DraftPreprocess.topk self
                  * DraftPreprocess.speculative_num_steps self)
          else snd (assign_draft_cache_locs B args))).
Proof.
  intros B run.
  pose proof (preprocess_run A get_last_loc next_power_of_2
                assign_draft_cache_locs self batch s) as Hrun.
  fold run in Hrun. fold B in Hrun.
  assert (Hnb : KVPool.is_alloc_without_backup
                  (DraftPreprocess.requested_call get_last_loc self batch)
                = false).
  { unfold DraftPreprocess.requested_call.
    destruct (_ =? 1); [reflexivity|]. destruct (_ =? 1); reflexivity. }
  destruct (DraftPreprocess.allocation A get_last_loc self batch s)
    as [[slots s']|] eqn:Ha.
  - destruct Hrun as [Hst (self' & batch' & args & Hok & Hslots & _ & Htab & Hout)].
    rewrite Hst. simpl. rewrite Hnb.
    split; [apply KVPool.restore_backup, laws|].
    split; [reflexivity|]. intros _. split; [reflexivity|].
    exists self', batch', slots, s', args. repeat split; assumption.
  - destruct Hrun as [Hok Hst]. rewrite Hst. simpl. rewrite Hnb.
    split; [reflexivity|]. split; [reflexivity|].
    intros H. rewrite Hok in H. discriminate.
Qed.

Lemma draft_preprocess_restores_allocator_witness :
  let run := DraftPreprocess._draft_preprocess_decode KVPool.FreeList
               DraftCacheLayout.get_last_loc DraftPreprocess.next_power_of_2
               DraftPreprocess.assign_page1
               Scenario.page1_worker Scenario.page1_batch
               (DraftPreprocess.fresh_pool (Scenario.free_slots 10 20)) in
  KVPool.pool_state (snd run) = Scenario.free_slots 10 20 /\
  (exists self' batch',
      fst run = Ok (self', batch') /\
      DraftPreprocess.out_cache_loc batch' = [10; 11; 12; 13; 14; 15; 16; 17] /\
      DraftPreprocess.req_to_token batch'
        = [[1; 2; 3; 10; 11; 12; 13; 0; 0; 0];
           [4; 5; 6; 7; 8; 14; 15; 16; 17; 0]]).
Proof.
  cbv zeta.
  pose proof (draft_preprocess_restores_allocator KVPool.FreeList
                FreeList_lawful DraftCacheLayout.get_last_loc
                DraftPreprocess.next_power_of_2 DraftPreprocess.assign_page1
                Scenario.page1_worker Scenario.page1_batch
                (Scenario.free_slots 10 20)) as (Hst & _ & _).
  split; [exact Hst|].
  eexists _, _. vm_compute. repeat split; reflexivity.
Defined.

(** ** NaN detection *)

Lemma any_isnan_spec (logits : list (list float)) :
  NanDetection.any_isnan logits = true <->
  exists row x, In row logits /\ In x row /\ NanDetection.isnan x = true.
Proof.
  unfold NanDetection.any_isnan. rewrite existsb_exists. split.
  - intros (row & Hrow & Hex). apply existsb_exists in Hex as (x & Hx & Hnan).
    exists row, x. auto.
  - intros (row & x & Hrow & Hx & Hnan). exists row. split; [assumption|].
    apply existsb_exists. exists x. auto.
Qed.


(** ** Hot-token remap *)

Lemma index_elem {A : Type} (t : list A) (i : Z) (x : A) :
  Tensor.index t i = Ok x -> In x t.
Proof.
  unfold Tensor.index.
  destruct ((0 <=? i) && (i <? Z.of_nat (length t))).
  - destruct (t !! Z.to_nat i) eqn:E; [|discriminate].
    intros [= <-]. apply list_elem_of_In. eapply list_elem_of_lookup_2; eauto.
  - destruct ((- Z.of_nat (length t) <=? i) && (i <? 0)); [|discriminate].
    destruct (t !! Z.to_nat (i + Z.of_nat (length t))) eqn:E; [|discriminate].
    intros [= <-]. apply list_elem_of_In. eapply list_elem_of_lookup_2; eauto.
Qed.

Lemma gather_elems {A : Type} (t : list A) (idx : list Z) (r : list A) :
  Tensor.gather t idx = Ok r -> Forall (fun x => In x t) r.
Proof.
  revert r. induction idx as [|i idx IH]; simpl; intros r.
  - intros [= <-]. constructor.
  - destruct (Tensor.index t i) as [e|x] eqn:Hi; [discriminate|].
    destruct (Tensor.gather t idx) as [e|xs]; [discriminate|].
    intros [= <-]. constructor; [eapply index_elem; eauto | now apply IH].
Qed.

Lemma gather_fixed (hot : list Z) (row : list Z) :
  Forall (fun v => Tensor.index hot v = Ok v) row ->
  Tensor.gather hot row = Ok row.
Proof.
  induction 1 as [|v row Hv Hrow IH]; simpl; [reflexivity|].
  now rewrite Hv, IH.
Qed.



(** A map under which a second application is harmless on every index
    tensor sends each of its entries to itself. *)
Lemma hot_token_remap_idempotent_only_if (hot : list Z) :
  (forall t t', HotToken.remap (Some hot) t = Ok t' ->
                HotToken.remap (Some hot) t' = Ok t') ->
  HotToken.fixes_own_entries hot.
Proof.
  intros H. unfold HotToken.fixes_own_entries. rewrite Forall_forall.
  intros v Hv. apply list_elem_of_lookup in Hv as [i Hi].
  assert (Hidx : Tensor.index hot (Z.of_nat i) = Ok v).
  { unfold Tensor.index. pose proof (lookup_lt_Some _ _ _ Hi).
    destruct (Z.leb_spec 0 (Z.of_nat i)); [|lia].
    destruct (Z.ltb_spec (Z.of_nat i) (Z.of_nat (length hot))); [|lia].
    simpl. now rewrite Nat2Z.id, Hi. }
  specialize (H [[Z.of_nat i]] [[v]]). simpl in H. rewrite Hidx in H.
  specialize (H eq_refl).
  destruct (Tensor.index hot v) as [e|w]; [discriminate|].
  now injection H as ->.
Qed.


(** ** Attention backend selection *)



(** ** The entry point *)

(** C2, as the code has it.  A decode-mode batch goes through [draft] and
    then [verify]; [forward_draft_extend_after_decode] runs after them when
    DP attention is enabled or the verified batch still carries verified
    ids, and is skipped otherwise. *)
Theorem decode_step_stages
    {W VerifyInput : Type} (T : SpeculativeGeneration.Stages W VerifyInput)
    (enable_dp_attention : bool) (w w1 w2 : W) (spec_info : VerifyInput)
    (out : LogitsProcessorOutput * SpeculativeGeneration.VerifyOutput * Z * bool) :
  SpeculativeGeneration.is_extend T (SpeculativeGeneration.batch_forward_mode T w)
    || SpeculativeGeneration.is_extend_in_batch T w = false ->
  SpeculativeGeneration.draft T w = (Ok spec_info, w1) ->
  SpeculativeGeneration.verify T spec_info w1 = (Ok out, w2) ->
  SpeculativeGeneration.stages_run
    (snd (SpeculativeGeneration.forward_batch_speculative_generation
            T enable_dp_attention (w, [])))
  = [SpeculativeGeneration.StageDraft; SpeculativeGeneration.StageVerify]
    ++ (if enable_dp_attention
           || (0 <? SpeculativeGeneration.verified_id_shape0 T w2)
        then [SpeculativeGeneration.StageDraftExtendAfterDecode]
        else []).
Proof.
  intros Hmode Hdraft Hverify.
  unfold SpeculativeGeneration.forward_batch_speculative_generation.
  unfold Ok, Raise in *.
  cbv beta iota zeta delta [bind get ret modify Ok Raise
    SpeculativeGeneration.draft_tp_context SpeculativeGeneration.stage
    SpeculativeGeneration.mark fst snd].
  rewrite Hmode.
  destruct out as [[[lo vo] bid] can].
  destruct enable_dp_attention; simpl.
  - rewrite Hdraft. simpl. rewrite Hverify. simpl.
    destruct (SpeculativeGeneration.forward_draft_extend_after_decode T w2)
      as [[e|[]] w3]; reflexivity.
  - rewrite Hdraft. simpl. rewrite Hverify. simpl.
    destruct (0 <? SpeculativeGeneration.verified_id_shape0 T w2); simpl.
    + destruct (SpeculativeGeneration.forward_draft_extend_after_decode T w2)
        as [[e|[]] w3]; reflexivity.
    + reflexivity.
Qed.

Lemma decode_step_stages_witness :
  SpeculativeGeneration.stages_run
    (snd (SpeculativeGeneration.forward_batch_speculative_generation
            (Scenario.decode_stages 2) false (2, [])))
  = [SpeculativeGeneration.StageDraft; SpeculativeGeneration.StageVerify;
     SpeculativeGeneration.StageDraftExtendAfterDecode].
Proof.
  refine (eq_trans
            (decode_step_stages (Scenario.decode_stages 2) false 2 2 2 tt _
               eq_refl eq_refl eq_refl) _).
  reflexivity.
Defined.

(** C2, as stated.  A decode step whose requests have all finished leaves no
    verified id in the batch; without DP attention the call then ends after
    [verify] and [forward_draft_extend_after_decode] is not run. *)
Lemma decode_step_skips_draft_extend_after_decode :
  let T := Scenario.decode_stages 0 in
  let run := SpeculativeGeneration.forward_batch_speculative_generation
               T false (2, []) in
  SpeculativeGeneration.is_extend T (SpeculativeGeneration.batch_forward_mode T 2)
    || SpeculativeGeneration.is_extend_in_batch T 2 = false /\
  is_ok (fst run) = true /\
  snd (snd run)
    = [SpeculativeGeneration.StageDraft; SpeculativeGeneration.StageVerify] /\
  ~ In SpeculativeGeneration.StageDraftExtendAfterDecode (snd (snd run)).
Proof.
  cbv zeta. repeat split; try reflexivity.
  simpl. intros [H|[H|[]]]; discriminate.
Qed.

(** ** Verification: the vocabulary mask *)

Lemma bind_run {S X Y : Type} (m : M S X) (k : X -> M S Y) (s : S) :
  bind m k s =
  match fst (m s) with
  | inl e => (Raise e, snd (m s))
  | inr a => k a (snd (m s))
  end.
Proof. unfold bind. destruct (m s) as [[e|a] s']; reflexivity. Qed.

Section VerifyFacts.
Import Verifier.

Variable Rest : Type.
Variable fdiv : float -> float -> float.
Variable log_softmax : list float -> list float.
Variable get_top_logprobs :
  list (list float) -> list Z -> list (list float) * list (list Z).
Variable get_token_ids_logprobs :
  list (list float) -> list (option (list Z)) ->
  list (list float) * list (list Z).
Variable enable_nan_detection : bool.
Variable page_size : Z.
Variable prepare_for_verify : Z -> M (Env Rest) unit.
Variable get_model_worker_batch :
  option (list Z) -> M (Env Rest) ModelWorkerBatch.
Variable forward_batch_generation :
  ModelWorkerBatch -> bool -> M (Env Rest) (nat * bool).
Variable generate_token_bitmask :
  list Req -> list (list Z) -> list (list Z) -> list (list Z) -> Z ->
  M (Env Rest) (option Mask).
Variable spec_verify : nat -> Z -> option Mask -> M (Env Rest) EagleVerifyOutput.

Abbreviation the_verify :=
  (verify Rest fdiv log_softmax get_top_logprobs get_token_ids_logprobs
     enable_nan_detection page_size prepare_for_verify get_model_worker_batch
     forward_batch_generation generate_token_bitmask spec_verify).

Lemma silent_bind {X Y : Type} (m : M (World Rest) X) (k : X -> M (World Rest) Y) :
  silent Rest m -> (forall a, silent Rest (k a)) -> silent Rest (bind m k).
Proof.
  intros Hm Hk w. rewrite bind_run.
  destruct (fst (m w)); simpl; [apply Hm|]. rewrite Hk. apply Hm.
Qed.

Lemma framing_silent {X : Type} (m : M (World Rest) X) :
  batch_framing Rest m -> silent Rest m.
Proof. intros H w. apply H. Qed.

Lemma framing_bind {X Y : Type} (m : M (World Rest) X) (k : X -> M (World Rest) Y) :
  batch_framing Rest m -> (forall a, batch_framing Rest (k a)) ->
  batch_framing Rest (bind m k).
Proof.
  intros Hm Hk w. rewrite bind_run.
  destruct (fst (m w)); simpl; [apply Hm|].
  destruct (Hk x (snd (m w))) as [-> ->]. apply Hm.
Qed.

Lemma silent_ext {X : Type} (f : M (Env Rest) X) : silent Rest (ext Rest f).
Proof. intros w. unfold ext. destruct (f (env w)). reflexivity. Qed.

Lemma framing_ret {X : Type} (x : X) : batch_framing Rest (ret x).
Proof. intros w. split; reflexivity. Qed.

Lemma framing_get : batch_framing Rest get.
Proof. intros w. split; reflexivity. Qed.

Lemma framing_raise {X : Type} (e : Exn) : batch_framing Rest (@raise _ X e).
Proof. intros w. split; reflexivity. Qed.

Lemma framing_lift {X : Type} (r : Result X) : batch_framing Rest (lift r).
Proof. intros w. split; reflexivity. Qed.

Lemma framing_assert (c : bool) : batch_framing Rest (assert c).
Proof. intros w. unfold assert. destruct c; split; reflexivity. Qed.

Lemma framing_get_logits (ref : nat) :
  batch_framing Rest (ext Rest (get_logits Rest ref)).
Proof.
  intros w. unfold ext, get_logits, bind, get. simpl.
  destruct (logits_objs (env w) !! ref); split; reflexivity.
Qed.

Lemma framing_set_the_spec_info (f : Env Rest -> EagleVerifyInput) :
  batch_framing Rest
    (ext Rest (modify (fun e => set_the_spec_info Rest (f e) e))).
Proof. intros w. split; reflexivity. Qed.

(** Stepping over a silent computation. *)
Lemma bind_silent_cases {X Y : Type}
    (m : M (World Rest) X) (k : X -> M (World Rest) Y) (w : World Rest)
    (Q : Result Y * World Rest -> Prop) :
  silent Rest m ->
  (forall e w1, events w1 = events w -> Q (Raise e, w1)) ->
  (forall a w1, events w1 = events w -> Q (k a w1)) ->
  Q (bind m k w).
Proof.
  intros Hm Hraise Hok. rewrite bind_run. specialize (Hm w).
  destruct (fst (m w)); [apply Hraise | apply Hok]; assumption.
Qed.

Lemma bind_framing_cases {X Y : Type}
    (m : M (World Rest) X) (k : X -> M (World Rest) Y) (w : World Rest)
    (Q : Result Y * World Rest -> Prop) :
  batch_framing Rest m ->
  (forall e w1, events w1 = events w -> Q (Raise e, w1)) ->
  (forall a w1, events w1 = events w ->
                batch (env w1) = batch (env w) -> Q (k a w1)) ->
  Q (bind m k w).
Proof.
  intros Hm Hraise Hok. rewrite bind_run. destruct (Hm w) as [He Hb].
  destruct (fst (m w)); [apply Hraise | apply Hok]; assumption.
Qed.

(** What [make_vocab_mask] records, by what it returns. *)
Lemma make_vocab_mask_cases {Y : Type}
    (cpu : option (list (list Z) * list (list Z) * list (list Z)))
    (k : option Mask -> M (World Rest) Y) (w : World Rest)
    (Q : Result Y * World Rest -> Prop) :
  (forall e w1,
      events w1 = events w \/
      (exists m, events w1 = events w ++ [EvGenerateTokenBitmask (Some m)]) ->
      Q (Raise e, w1)) ->
  (forall w1,
      events w1 = events w \/
      events w1 = events w ++ [EvGenerateTokenBitmask None] ->
      Q (k None w1)) ->
  (forall m w1,
      events w1 = events w ++ [EvGenerateTokenBitmask (Some m); EvClearVocabMask] ->
      vocab_mask (sampling_info (batch (env w1))) = None ->
      Q (k (Some m) w1)) ->
  Q (bind (make_vocab_mask Rest generate_token_bitmask cpu) k w).
Proof.
  intros Hraise Hnone Hsome.
  unfold make_vocab_mask, bind, get, ext, emit, upd_batch, modify, assert,
    ret, raise, Ok, Raise in *.
  cbn.
  destruct (has_grammar (batch (env w))); [|apply Hnone; left; reflexivity].
  destruct cpu as [[[nt ns] dt]|]; [|apply Hraise; left; reflexivity].
  destruct (generate_token_bitmask _ nt ns dt _ (env w)) as [[e|vm] e1]; cbn.
  { apply Hraise. left; reflexivity. }
  destruct vm as [m|]; cbn; [|apply Hnone; right; reflexivity].
  destruct (bool_decide (is_Some (grammar (the_spec_info e1)))); cbn.
  - apply Hsome; cbn; [now rewrite <- app_assoc | reflexivity].
  - apply Hraise. right. exists m. reflexivity.
Qed.

Lemma bind_get {S Y : Type} (k : S -> M S Y) (s : S) : bind get k s = k s s.
Proof. reflexivity. Qed.

Lemma silent_upd_batch (f : Batch -> Batch) : silent Rest (upd_batch Rest f).
Proof. apply silent_ext. Qed.

Lemma emit_then_silent {Y : Type}
    (ev : Event) (k : unit -> M (World Rest) Y) (w : World Rest) :
  (forall a, silent Rest (k a)) ->
  events (snd (bind (emit Rest ev) k w)) = events w ++ [ev].
Proof. intros Hk. unfold bind, emit, modify. cbn. now rewrite Hk. Qed.

Ltac silence :=
  repeat first
    [ apply silent_ext
    | apply silent_upd_batch
    | apply framing_silent, framing_ret
    | apply framing_silent, framing_get
    | apply framing_silent, framing_raise
    | apply framing_silent, framing_lift
    | apply framing_silent, framing_assert
    | apply silent_bind; [|intros]
    | match goal with
      | |- silent _ (if ?c then _ else _) => destruct c
      | |- silent _ (match ?x with _ => _ end) => destruct x
      end ].

(** The mask events of a whole verify step. *)
Lemma verify_events (e : Env Rest) :
  mask_discipline (events (snd (the_verify (start Rest e)))) /\
  (is_ok (fst (the_verify (start Rest e))) = true ->
   exists sm vm,
     last (events (snd (the_verify (start Rest e)))) = Some (EvSpecVerify sm vm)).
Proof.
  set (Q := fun x : Result (nat * EagleVerifyOutput * ModelWorkerBatch * bool)
                     * World Rest =>
              mask_discipline (events (snd x)) /\
              (is_ok (fst x) = true ->
               exists sm vm, last (events (snd x)) = Some (EvSpecVerify sm vm))).
  change (Q (the_verify (start Rest e))).
  assert (Hraise0 : forall ex w1, events w1 = [] -> Q (Raise ex, w1)).
  { intros ex w1 H. split; cbn; [rewrite H; left; reflexivity | discriminate]. }
  assert (H : events (start Rest e) = []) by reflexivity.
  unfold verify. generalize dependent (start Rest e). intros w H.
  apply bind_silent_cases; [silence | intros ? ? Hn; apply Hraise0; congruence |].
  intros _ w1 H1. rewrite H in H1. clear w H.
  apply bind_silent_cases; [silence | intros ? ? Hn; apply Hraise0; congruence |].
  intros _ w2 H2. rewrite H1 in H2. clear w1 H1.
  apply bind_silent_cases; [silence | intros ? ? Hn; apply Hraise0; congruence |].
  intros _ w3 H3. rewrite H2 in H3. clear w2 H2.
  apply bind_silent_cases; [silence | intros ? ? Hn; apply Hraise0; congruence |].
  intros _ w4 H4. rewrite H3 in H4. clear w3 H3.
  rewrite bind_get.
  apply bind_silent_cases; [silence | intros ? ? Hn; apply Hraise0; congruence |].
  intros mwb w5 H5. rewrite H4 in H5. clear H4.
  rewrite bind_get.
  apply bind_silent_cases; [silence | intros ? ? Hn; apply Hraise0; congruence |].
  intros _ w6 H6. rewrite H5 in H6. clear H5.
  apply bind_silent_cases; [silence | intros ? ? Hn; apply Hraise0; congruence |].
  intros cpu w7 H7. rewrite H6 in H7. clear H6.
  apply bind_silent_cases; [silence | intros ? ? Hn; apply Hraise0; congruence |].
  intros [logits_output can] w8 H8. rewrite H7 in H8. clear H7.
  apply make_vocab_mask_cases.
  - intros ex w9 [H9|[m H9]]; rewrite H8 in H9.
    + apply Hraise0. assumption.
    + split; cbn; [|discriminate]. rewrite H9.
      do 4 right. exists m. left. reflexivity.
  - (* no mask was generated *)
    intros w9 H9. rewrite H8 in H9. cbn [app] in H9.
    assert (Hraise9 : forall ex w', events w' = events w9 -> Q (Raise ex, w')).
    { intros ex w' H'. split; cbn; [|discriminate]. rewrite H'.
      destruct H9 as [-> | ->]; [left | right; right; left]; reflexivity. }
    apply bind_silent_cases;
      [apply framing_silent, framing_get_logits | exact Hraise9 |].
    intros lo w10 H10.
    apply bind_silent_cases;
      [silence | intros ? ? Hn; apply Hraise9; congruence |].
    intros _ w11 H11. rewrite H10 in H11.
    apply bind_silent_cases;
      [silence | intros ? ? Hn; apply Hraise9; congruence |].
    intros _ w12 H12. rewrite H11 in H12.
    rewrite bind_get.
    match goal with
    | |- Q (bind (emit _ ?ev) ?k ?w) =>
        assert (Hev : events (snd (bind (emit Rest ev) k w)) = events w ++ [ev])
          by (apply emit_then_silent; intros; silence; destruct a; silence)
    end.
    split.
    + rewrite Hev, H12.
      destruct H9 as [-> | ->]; cbn;
        [right; left | do 3 right; left]; eexists; reflexivity.
    + intros _. rewrite Hev, last_snoc. eauto.
  - (* a mask was generated *)
    intros m w9 H9 Hmask. rewrite H8 in H9. cbn [app] in H9.
    assert (Hraise9 : forall ex w', events w' = events w9 -> Q (Raise ex, w')).
    { intros ex w' H'. split; cbn; [|discriminate]. rewrite H', H9.
      do 4 right. exists m. right; left. reflexivity. }
    apply bind_framing_cases; [apply framing_get_logits | exact Hraise9 |].
    intros lo w10 H10 B10.
    apply bind_framing_cases;
      [apply framing_lift | intros ? ? Hn; apply Hraise9; congruence |].
    intros _ w11 H11 B11. rewrite H10 in H11. rewrite B10 in B11.
    apply bind_framing_cases;
      [apply framing_set_the_spec_info
      | intros ? ? Hn; apply Hraise9; congruence |].
    intros _ w12 H12 B12. rewrite H11 in H12. rewrite B11 in B12.
    rewrite bind_get. rewrite B12, Hmask.
    match goal with
    | |- Q (bind (emit _ ?ev) ?k ?w) =>
        assert (Hev : events (snd (bind (emit Rest ev) k w)) = events w ++ [ev])
          by (apply emit_then_silent; intros; silence; destruct a; silence)
    end.
    split.
    + rewrite Hev, H12, H9. cbn.
      do 4 right. exists m. right; right. reflexivity.
    + intros _. rewrite Hev, last_snoc. eauto.
Qed.

(** C9.  When a verify step generates a vocabulary mask, the batch's own
    [sampling_info.vocab_mask] is cleared before acceptance: the acceptance
    step, if reached, finds no mask on the batch and is handed the generated
    one; and a verify step that returns has reached it. *)
Theorem verify_clears_prior_mask (e : Env Rest) (m : Mask) :
  In (EvGenerateTokenBitmask (Some m))
     (events (snd (the_verify (start Rest e)))) ->
  (forall sm vm,
      In (EvSpecVerify sm vm) (events (snd (the_verify (start Rest e)))) ->
      sm = None /\ vm = Some m) /\
  (events (snd (the_verify (start Rest e)))
     = [EvGenerateTokenBitmask (Some m)] \/
   events (snd (the_verify (start Rest e)))
     = [EvGenerateTokenBitmask (Some m); EvClearVocabMask] \/
   events (snd (the_verify (start Rest e)))
     = [EvGenerateTokenBitmask (Some m); EvClearVocabMask;
        EvSpecVerify None (Some m)]) /\
  (is_ok (fst (the_verify (start Rest e))) = true ->
   events (snd (the_verify (start Rest e)))
     = [EvGenerateTokenBitmask (Some m); EvClearVocabMask;
        EvSpecVerify None (Some m)]).
Proof.
  intros Hin. destruct (verify_events e) as [Hshape Hdone].
  destruct Hshape as [H|[[sm H]|[H|[[sm H]|[m' H]]]]];
    try (rewrite H in Hin; simpl in Hin; intuition discriminate).
  assert (m' = m) as ->.
  { destruct H as [H|[H|H]]; rewrite H in Hin; simpl in Hin;
      intuition congruence. }
  split; [|split].
  - intros sm vm Hsv.
    destruct H as [H|[H|H]]; rewrite H in Hsv; simpl in Hsv;
      intuition congruence.
  - exact H.
  - intros Hok. destruct (Hdone Hok) as (sm & vm & Hlast).
    destruct H as [H|[H|H]]; rewrite H in Hlast |- *;
      [discriminate | discriminate | reflexivity].
Qed.

End VerifyFacts.

Lemma verify_clears_prior_mask_witness :
  Verifier.vocab_mask
    (Verifier.sampling_info (Verifier.batch Scenario.grammar_env))
    = Some Scenario.stale_mask /\
  Verifier.events (snd (Scenario.run_verify Scenario.grammar_env))
    = [Verifier.EvGenerateTokenBitmask (Some Scenario.fresh_mask);
       Verifier.EvClearVocabMask;
       Verifier.EvSpecVerify None (Some Scenario.fresh_mask)].
Proof.
  split; [reflexivity|].
  apply (verify_clears_prior_mask unit
           (fun x _ => x) (fun row => row) (fun _ _ => ([], []))
           (fun _ _ => ([], [])) true 1
           (fun _ => ret tt)
           (fun _ => ret {| Verifier.mwb_capture_hidden_mode := FULL;
                            Verifier.bid := 0 |})
           Scenario.target_forward
           (fun _ _ _ _ _ => ret (Some Scenario.fresh_mask))
           Scenario.accept_root
           Scenario.grammar_env Scenario.fresh_mask).
  - vm_compute. left. reflexivity.
  - vm_compute. reflexivity.
Defined.

(** ** Log-probability attachment *)

Lemma bind_ok {S X Y : Type} (m : M S X) (k : X -> M S Y) (s s' : S) (y : Y) :
  bind m k s = (Ok y, s') ->
  exists a s1, m s = (Ok a, s1) /\ k a s1 = (Ok y, s').
Proof.
  unfold bind. destruct (m s) as [[e|a] s1]; [discriminate|].
  intros H. exists a, s1. auto.
Qed.

Lemma index_nonneg {A : Type} (t : list A) (i : Z) (x : A) :
  0 <= i -> Tensor.index t i = Ok x -> t !! Z.to_nat i = Some x.
Proof.
  intros Hi. unfold Tensor.index.
  destruct (Z.leb_spec 0 i); [|lia]. simpl.
  destruct (i <? Z.of_nat (length t)); simpl.
  - destruct (t !! Z.to_nat i); [|discriminate]. now intros [= ->].
  - destruct (Z.ltb_spec i 0); [lia|]. rewrite andb_false_r. discriminate.
Qed.

Lemma py_slice_cons {A : Type} (l : list A) (k n : nat) (x : A) :
  l !! k = Some x ->
  Verifier.py_slice l k (S n) = x :: Verifier.py_slice l (S k) n.
Proof.
  intros H. unfold Verifier.py_slice. now rewrite (drop_S _ _ _ H).
Qed.

Section LogprobFacts.
Import Verifier.

Variable next_token_logprobs : list float.
Variable verified_ids : list Z.
Variable top_val : option (list (list float)).
Variable top_idx : option (list (list Z)).

Lemma attach_one_ok (pt : Z) (req req1 : Req) :
  0 <= pt ->
  attach_one next_token_logprobs verified_ids top_val top_idx pt req
    = (Ok tt, req1) ->
  r_return_logprob req1 = r_return_logprob req /\
  (r_return_logprob req = false -> req1 = req) /\
  (r_return_logprob req = true ->
   exists v i,
     next_token_logprobs !! Z.to_nat pt = Some v /\
     verified_ids !! Z.to_nat pt = Some i /\
     output_token_logprobs_val req1 = output_token_logprobs_val req ++ [v] /\
     output_token_logprobs_idx req1 = output_token_logprobs_idx req ++ [i]).
Proof.
  intros Hpt. unfold attach_one, bind, get, lift, modify, ret, Ok, Raise.
  destruct (r_return_logprob req) eqn:Hr.
  2:{ intros [= <-]. repeat split; try assumption; try discriminate. }
  destruct (Tensor.index next_token_logprobs pt) as [e|v] eqn:Hv; [discriminate|].
  destruct (Tensor.index verified_ids pt) as [e|i] eqn:Hi; [discriminate|].
  apply index_nonneg in Hv; [|assumption].
  apply index_nonneg in Hi; [|assumption].
  destruct (0 <? top_logprobs_num req).
  - destruct (index_attr top_val pt) as [e|tv]; [discriminate|].
    destruct (index_attr top_idx pt) as [e|ti]; [discriminate|].
    intros [= <-]. cbn. repeat split; try assumption; try discriminate.
    intros _. exists v, i. repeat split; assumption.
  - intros [= <-]. cbn. repeat split; try assumption; try discriminate.
    intros _. exists v, i. repeat split; assumption.
Qed.

Lemma attach_tokens_ok (n : nat) (pt pt' : Z) (req req' : Req) :
  0 <= pt ->
  attach_tokens next_token_logprobs verified_ids top_val top_idx n pt req
    = (Ok pt', req') ->
  pt' = pt + Z.of_nat n /\
  r_return_logprob req' = r_return_logprob req /\
  (r_return_logprob req = false -> req' = req) /\
  (r_return_logprob req = true ->
   output_token_logprobs_val req'
     = output_token_logprobs_val req
       ++ py_slice next_token_logprobs (Z.to_nat pt) n /\
   output_token_logprobs_idx req'
     = output_token_logprobs_idx req
       ++ py_slice verified_ids (Z.to_nat pt) n /\
   length (py_slice next_token_logprobs (Z.to_nat pt) n) = n /\
   length (py_slice verified_ids (Z.to_nat pt) n) = n).
Proof.
  revert pt req. induction n as [|n IH]; intros pt req Hpt; simpl.
  - intros [= <- <-]. split; [lia|]. split; [reflexivity|].
    split; [reflexivity|]. intros _.
    unfold py_slice. simpl. rewrite !take_0, !app_nil_r. auto.
  - intros H. apply bind_ok in H as ([] & req1 & H1 & H2).
    apply attach_one_ok in H1 as (Hf1 & Hno1 & Hyes1); [|assumption].
    apply IH in H2 as (-> & Hf2 & Hno2 & Hyes2); [|lia].
    split; [lia|]. split; [congruence|]. split.
    + intros Hr. rewrite (Hno2 ltac:(congruence)). now apply Hno1.
    + intros Hr.
      destruct (Hyes1 Hr) as (v & i & Hv & Hi & Ev & Ei).
      destruct (Hyes2 ltac:(congruence)) as (Ev2 & Ei2 & L1 & L2).
      replace (Z.to_nat (pt + 1)) with (Datatypes.S (Z.to_nat pt)) in * by lia.
      rewrite (py_slice_cons _ _ _ _ Hv), (py_slice_cons _ _ _ _ Hi).
      rewrite Ev2, Ei2, Ev, Ei, <- !app_assoc. simpl.
      repeat split; try reflexivity; now f_equal.
Qed.

Lemma attach_all_ok (reqs : list Req) (nums : list Z) (pt pt' : Z)
    (reqs' : list Req) :
  0 <= pt ->
  attach_all next_token_logprobs verified_ids top_val top_idx reqs nums pt
    = (Ok pt', reqs') ->
  length reqs = length nums /\
  pt' = pt + Z.of_nat (sum_list (map Z.to_nat nums)) /\
  forall b req n,
    reqs !! b = Some req -> nums !! b = Some n ->
    exists req',
      reqs' !! b = Some req' /\
      (r_return_logprob req = false -> req' = req) /\
      (r_return_logprob req = true ->
       let start := (Z.to_nat pt + sum_list (map Z.to_nat (take b nums)))%nat in
       output_token_logprobs_val req'
         = output_token_logprobs_val req
           ++ py_slice next_token_logprobs start (Z.to_nat n) /\
       output_token_logprobs_idx req'
         = output_token_logprobs_idx req
           ++ py_slice verified_ids start (Z.to_nat n) /\
       length (py_slice next_token_logprobs start (Z.to_nat n)) = Z.to_nat n /\
       length (py_slice verified_ids start (Z.to_nat n)) = Z.to_nat n).
Proof.
  revert nums pt reqs'.
  induction reqs as [|req0 reqs IH]; intros [|n0 nums] pt reqs' Hpt; simpl;
    try discriminate.
  - intros [= <- <-]. repeat split; try lia. intros b req n Hb. discriminate.
  - destruct (attach_tokens _ _ _ _ (Z.to_nat n0) pt req0)
      as [[e|pt1] req1] eqn:H0; [discriminate|].
    destruct (attach_all _ _ _ _ reqs nums pt1) as [r rest] eqn:Hrest.
    intros [= -> <-].
    apply attach_tokens_ok in H0 as (-> & Hf & Hno & Hyes); [|assumption].
    apply IH in Hrest as (Hlen & -> & Hall); [|lia].
    split; [simpl; congruence|]. split; [lia|].
    intros [|b] req n; simpl.
    + intros [= <-] [= <-]. exists req1. split; [reflexivity|].
      split; [assumption|]. intros Hr. cbv zeta.
      rewrite Nat.add_0_r. now apply Hyes.
    + intros Hb Hn. destruct (Hall b req n Hb Hn) as (req' & E & Hno' & Hyes').
      exists req'. split; [assumption|]. split; [assumption|].
      intros Hr. specialize (Hyes' Hr). cbv zeta in *.
      replace (Z.to_nat pt + (Z.to_nat n0 + sum_list (map Z.to_nat (take b nums))))%nat
        with (Z.to_nat (pt + Z.of_nat (Z.to_nat n0))
              + sum_list (map Z.to_nat (take b nums)))%nat by lia.
      exact Hyes'.
Qed.

End LogprobFacts.

Lemma gather_lookup {A : Type} (t : list A) (idx : list Z) (r : list A) :
  Tensor.gather t idx = Ok r ->
  length r = length idx /\
  forall j i, idx !! j = Some i ->
    exists x, Tensor.index t i = Ok x /\ r !! j = Some x.
Proof.
  revert r. induction idx as [|i0 idx IH]; simpl; intros r.
  - intros [= <-]. split; [reflexivity|]. intros j i H. discriminate.
  - destruct (Tensor.index t i0) as [e|x0] eqn:H0; [discriminate|].
    destruct (Tensor.gather t idx) as [e|xs]; [discriminate|].
    intros [= <-]. destruct (IH xs eq_refl) as [Hlen Hall].
    split; [simpl; congruence|].
    intros [|j] i; simpl.
    + intros [= <-]. eauto.
    + apply Hall.
Qed.

Section PickFacts.
Import Verifier.
Variable fdiv : float -> float -> float.
Variable log_softmax : list float -> list float.

Lemma pick_lookup (logprobs : list (list float)) (j0 : Z) (ids : list Z)
    (picked : list float) :
  0 <= j0 ->
  pick logprobs j0 ids = Ok picked ->
  length picked = length ids /\
  forall j v, ids !! j = Some v ->
    exists row p,
      logprobs !! (Z.to_nat j0 + j)%nat = Some row /\
      Tensor.index row v = Ok p /\
      picked !! j = Some p.
Proof.
  revert j0 picked. induction ids as [|i ids IH]; simpl; intros j0 picked Hj.
  - intros [= <-]. split; [reflexivity|]. intros j v H. discriminate.
  - destruct (Tensor.index logprobs j0) as [e|row] eqn:Hrow; [discriminate|].
    destruct (Tensor.index row i) as [e|p] eqn:Hp; [discriminate|].
    destruct (pick logprobs (j0 + 1) ids) as [e|ps] eqn:Hps; [discriminate|].
    intros [= <-]. apply IH in Hps as [Hlen Hall]; [|lia].
    apply index_nonneg in Hrow; [|assumption].
    split; [simpl; congruence|].
    intros [|j] v; simpl.
    + intros [= <-]. exists row, p. rewrite Nat.add_0_r. auto.
    + intros Hv. destruct (Hall j v Hv) as (row' & p' & H1 & H2 & H3).
      exists row', p'. repeat split; try assumption.
      replace (Z.to_nat j0 + Datatypes.S j)%nat with (Z.to_nat (j0 + 1) + j)%nat
        by lia.
      assumption.
Qed.

Lemma scaled_logprobs_lookup (logits : list (list float)) (temps : list float)
    (j : nat) (row' : list float) :
  scaled_logprobs fdiv log_softmax logits temps !! j = Some row' ->
  exists row t,
    logits !! j = Some row /\ temps !! j = Some t /\
    row' = log_softmax (map (fun x => fdiv x t) row).
Proof.
  unfold scaled_logprobs. intros H.
  apply lookup_zip_with_Some in H as (row & t & -> & H1 & H2). eauto.
Qed.

End PickFacts.

Section AddLogprobFacts.
Import Verifier.
Variable Rest : Type.
Variable fdiv : float -> float -> float.
Variable log_softmax : list float -> list float.
Variable get_top_logprobs :
  list (list float) -> list Z -> list (list float) * list (list Z).
Variable get_token_ids_logprobs :
  list (list float) -> list (option (list Z)) ->
  list (list float) * list (list Z).

Abbreviation the_add_logprob_values :=
  (add_logprob_values Rest fdiv log_softmax get_top_logprobs
     get_token_ids_logprobs).

Lemma get_logits_ok (ref : nat) (e e1 : Env Rest) (lo : LogitsProcessorOutput) :
  get_logits Rest ref e = (Ok lo, e1) ->
  e1 = e /\ logits_objs e !! ref = Some lo.
Proof.
  unfold get_logits, bind, get, ret, raise. cbn.
  destruct (logits_objs e !! ref); [|discriminate]. intros [= <- <-]. auto.
Qed.

Lemma put_logits_ok (ref : nat) (lo : LogitsProcessorOutput) (e e1 : Env Rest) :
  put_logits Rest ref lo e = (Ok tt, e1) ->
  batch e1 = batch e /\
  the_spec_info e1 = the_spec_info e /\
  logits_objs e1 = <[ ref := lo ]> (logits_objs e).
Proof. unfold put_logits, modify. intros [= <-]. auto. Qed.

Lemma request_of_lookup (acc : list Z) (D : Z) (idx : list Z) (j : nat) (i : Z) :
  request_of acc D = Ok idx -> idx !! j = Some i ->
  exists a, acc !! j = Some a /\ i = Tensor.wrap64 (a / D).
Proof.
  unfold request_of. destruct (D =? 0); [discriminate|].
  intros [= <-]. unfold Tensor.floordiv_s.
  change (map ?f ?l) with (f <$> l). rewrite list_lookup_fmap.
  destruct (acc !! j) as [a|]; simpl; [|discriminate].
  intros [= <-]. eauto.
Qed.

Lemma read_offset_map (accept : list Z) (b : nat) :
  sum_list (map Z.to_nat (take b (map (fun a => a + 1) accept)))
  = read_offset accept b.
Proof.
  unfold read_offset, num_tokens.
  change (map ?f ?l) with (f <$> l). rewrite <- fmap_take, <- list_fmap_compose.
  reflexivity.
Qed.

(** C7.  When [add_logprob_values] returns, the log-probability attached
    to the accepted token at flat index [j] is
    [log_softmax(logits[j] / T[b(j)])] read at the verified token id, with
    [b(j) = accepted_indices[j] // draft_token_num] (as an int64); the read
    pointer has advanced by [accept_length[b] + 1] for every request [b],
    and a request that asked for log-probabilities has received exactly
    the [accept_length[b] + 1] values and token ids the pointer passed
    over (a request that did not is left as it was). *)
Theorem add_logprob_values_attaches
    (res : EagleVerifyOutput) (logits_output : nat)
    (e e' : Env Rest) (pt : Z) :
  the_add_logprob_values res logits_output e = (Ok pt, e') ->
  let D := draft_token_num (the_spec_info e) in
  let T := temperatures (sampling_info (batch e)) in
  let accept := accept_length_per_req_cpu res in
  exists lo lo' logprobs,
    logits_objs e !! vo_logits_output res = Some lo /\
    logits_objs e' !! vo_logits_output res = Some lo' /\
    next_token_logprobs lo' = Some logprobs /\
    length logprobs = length (verified_id res) /\
    (forall j v,
        verified_id res !! j = Some v ->
        exists a row t p,
          accepted_indices res !! j = Some a /\
          next_token_logits lo !! j = Some row /\
          Tensor.index T (Tensor.wrap64 (a / D)) = Ok t /\
          Tensor.index (log_softmax (map (fun x => fdiv x t) row)) v = Ok p /\
          logprobs !! j = Some p) /\
    pt = Z.of_nat (read_offset accept (length accept)) /\
    length (reqs (batch e)) = length accept /\
    (forall b req accept_b,
        reqs (batch e) !! b = Some req ->
        accept !! b = Some accept_b ->
        exists req',
          reqs (batch e') !! b = Some req' /\
          (r_return_logprob req = false -> req' = req) /\
          (r_return_logprob req = true ->
           output_token_logprobs_val req'
             = output_token_logprobs_val req
               ++ py_slice logprobs (read_offset accept b) (num_tokens accept_b) /\
           output_token_logprobs_idx req'
             = output_token_logprobs_idx req
               ++ py_slice (verified_id res) (read_offset accept b)
                    (num_tokens accept_b) /\
           length (output_token_logprobs_val req')
             = (length (output_token_logprobs_val req) + num_tokens accept_b)%nat /\
           length (output_token_logprobs_idx req')
             = (length (output_token_logprobs_idx req) + num_tokens accept_b)%nat)).
Proof.
  intros H D T accept. unfold add_logprob_values in H.
  apply bind_ok in H as (lo & e1 & Hlo & H).
  apply get_logits_ok in Hlo as [-> Hlo].
  rewrite bind_get in H.
  apply bind_ok in H as ([] & e1 & Hassert & H).
  unfold assert in Hassert.
  destruct (Nat.eqb_spec (length (accepted_indices res))
              (length (next_token_logits lo))) as [Hlen|]; [|discriminate].
  injection Hassert as <-.
  apply bind_ok in H as (D' & e1 & HD & H).
  unfold batch_draft_token_num in HD. rewrite bind_get in HD.
  destruct (spec_info (batch e)) eqn:Hspec; [discriminate|].
  injection HD as <- <-. fold D in H.
  apply bind_ok in H as (req_idx & e1 & Hidx & H).
  unfold lift in Hidx. injection Hidx as Hidx <-.
  apply bind_ok in H as (temps & e1 & Htemps & H).
  unfold lift in Htemps. injection Htemps as Htemps <-. fold T in Htemps.
  apply bind_ok in H as ([] & e1 & Hput1 & H).
  apply put_logits_ok in Hput1 as (B1 & _ & L1).
  apply bind_ok in H as ([] & e2 & Hput2 & H).
  apply put_logits_ok in Hput2 as (B2 & _ & L2).
  apply bind_ok in H as (picked & e3 & Hpick & H).
  unfold lift in Hpick. injection Hpick as Hpick <-.
  apply bind_ok in H as ([] & e4 & Hput3 & H).
  apply put_logits_ok in Hput3 as (B3 & _ & L3).
  rewrite bind_get in H.
  match type of L3 with
  | _ = <[ _ := ?x ]> _ => set (lo' := x) in *
  end.
  match type of H with
  | context [attach_all ?a ?b ?c ?d ?rs ?ns ?p] =>
      destruct (attach_all a b c d rs ns p) as [r reqs'] eqn:Hattach
  end.
  apply bind_ok in H as ([] & e5 & Hmod & H).
  unfold modify in Hmod. injection Hmod as <-.
  unfold lift in H. injection H as -> <-.
  apply attach_all_ok in Hattach as (Hlenr & Hpt & Hall); [|lia].
  rewrite B3, B2, B1 in Hlenr, Hall.
  rewrite length_map in Hlenr.
  apply pick_lookup in Hpick as [Hplen Hpall]; [|lia].
  destruct (gather_lookup _ _ _ Htemps) as [Htlen Htall].
  exists lo, lo', picked.
  split; [assumption|]. split.
  { cbn. rewrite L3. apply list_lookup_insert_eq.
    rewrite L2, L1, !length_insert. eapply lookup_lt_Some; eauto. }
  split; [reflexivity|]. split; [assumption|]. split.
  { intros j v Hv. destruct (Hpall j v Hv) as (row' & p & Hrow' & Hp & Hpj).
    simpl in Hrow'.
    apply scaled_logprobs_lookup in Hrow' as (row & t & Hrow & Ht & ->).
    destruct (req_idx !! j) as [i|] eqn:Hi.
    2:{ apply lookup_ge_None in Hi. apply lookup_lt_Some in Ht. lia. }
    destruct (Htall j i Hi) as (t' & Hidx' & Ht').
    assert (t' = t) as -> by congruence.
    destruct (request_of_lookup _ _ _ _ _ Hidx Hi) as (a & Ha & ->).
    exists a, row, t, p. auto. }
  split.
  { rewrite Hpt. simpl. f_equal.
    rewrite <- (read_offset_map accept (length accept)).
    rewrite take_ge; [reflexivity|]. rewrite length_map. reflexivity. }
  split; [assumption|].
  intros b req accept_b Hreq Hacc.
  assert (Hn : map (fun a => a + 1) accept !! b = Some (accept_b + 1)).
  { change (map ?f ?l) with (f <$> l). rewrite list_lookup_fmap, Hacc.
    reflexivity. }
  destruct (Hall b req _ Hreq Hn) as (req' & Hreq' & Hno & Hyes).
  exists req'. split; [exact Hreq'|]. split; [exact Hno|].
  intros Hr. specialize (Hyes Hr). cbv zeta in Hyes. simpl in Hyes.
  rewrite read_offset_map in Hyes. fold (num_tokens accept_b) in Hyes.
  destruct Hyes as (Ev & Ei & Lv & Li).
  repeat split; try assumption.
  - rewrite Ev, length_app, Lv. reflexivity.
  - rewrite Ei, length_app, Li. reflexivity.
Qed.

End AddLogprobFacts.

Lemma add_logprob_values_attaches_witness :
  fst Scenario.run_add_logprob_values = Ok 3 /\
  exists req',
    Verifier.reqs (Verifier.batch (snd Scenario.run_add_logprob_values)) !! 0%nat
      = Some req' /\
    Verifier.output_token_logprobs_idx req' = [1; 0] /\
    length (Verifier.output_token_logprobs_val req') = 2%nat.
Proof.
  split; [reflexivity|].
  assert (Hrun : Scenario.run_add_logprob_values
                 = (Ok 3, snd Scenario.run_add_logprob_values))
    by (vm_compute; reflexivity).
  destruct (add_logprob_values_attaches unit
              (fun x _ => x) (fun row => row) (fun _ _ => ([], []))
              (fun _ _ => ([], []))
              Scenario.logprob_res 0%nat Scenario.logprob_env _ 3 Hrun)
    as (lo & lo' & logprobs & _ & _ & _ & _ & _ & _ & _ & Hall).
  destruct (Hall 0%nat (Scenario.plain_req true) 1 eq_refl eq_refl)
    as (req' & Hreq' & _ & Hyes).
  destruct (Hyes eq_refl) as (_ & Ei & Lv & _).
  exists req'. split; [exact Hreq'|]. split; [exact Ei | exact Lv].
Defined.

(** ** Draft extend after decode *)

Section StoreFacts.
Import DraftExtend.

Lemma preserves_bind {X Y : Type} (P : Store -> Prop)
    (m : M Store X) (k : X -> M Store Y) :
  preserves P m -> (forall a, preserves P (k a)) -> preserves P (bind m k).
Proof.
  intros Hm Hk st HP. rewrite bind_run. specialize (Hm st HP).
  destruct (fst (m st)); simpl; [assumption | now apply Hk].
Qed.

Lemma preserves_ret {X : Type} (P : Store -> Prop) (x : X) : preserves P (ret x).
Proof. intros st H. exact H. Qed.

Lemma preserves_raise {X : Type} (P : Store -> Prop) (e : Exn) :
  preserves P (@raise _ X e).
Proof. intros st H. exact H. Qed.

Lemma preserves_get (P : Store -> Prop) : preserves P get.
Proof. intros st H. exact H. Qed.

Lemma preserves_lift {X : Type} (P : Store -> Prop) (r : Result X) :
  preserves P (lift r).
Proof. intros st H. exact H. Qed.

Lemma preserves_assert (P : Store -> Prop) (c : bool) : preserves P (assert c).
Proof. intros st H. unfold assert. destruct c; exact H. Qed.

Lemma preserves_get_batch (P : Store -> Prop) (b : bid) :
  preserves P (get_batch b).
Proof. intros st H. unfold get_batch. destruct (batches st !! b); exact H. Qed.

Lemma preserves_get_draft_input (P : Store -> Prop) (s : sid) :
  preserves P (get_draft_input s).
Proof.
  intros st H. unfold get_draft_input.
  destruct (specs st !! s) as [[d|]|]; exact H.
Qed.

Lemma preserves_read_tensor (P : Store -> Prop) (l : loc) :
  preserves P (read_tensor l).
Proof. intros st H. unfold read_tensor. destruct (tensors st !! l); exact H. Qed.

Lemma get_batch_ok (b : bid) (st st1 : Store) (bo : BatchObj) :
  get_batch b st = (Ok bo, st1) -> st1 = st /\ batches st !! b = Some bo.
Proof.
  unfold get_batch. destruct (batches st !! b); [|discriminate].
  intros [= <- <-]. auto.
Qed.

Lemma get_draft_input_ok (s : sid) (st st1 : Store) (d : DraftInputObj) :
  get_draft_input s st = (Ok d, st1) ->
  st1 = st /\ specs st !! s = Some (DraftInput d).
Proof.
  unfold get_draft_input. destruct (specs st !! s) as [[d'|]|]; try discriminate.
  intros [= <- <-]. auto.
Qed.

Lemma read_tensor_ok (l : loc) (st st1 : Store) (c : list Z) :
  read_tensor l st = (Ok c, st1) -> st1 = st /\ tensors st !! l = Some c.
Proof.
  unfold read_tensor. destruct (tensors st !! l); [|discriminate].
  intros [= <- <-]. auto.
Qed.

Lemma preserves_with_batch {Y : Type} (P : Store -> Prop) (b : bid)
    (k : BatchObj -> M Store Y) :
  (forall bo st, batches st !! b = Some bo -> P st -> P (snd (k bo st))) ->
  preserves P (bind (get_batch b) k).
Proof.
  intros Hk st HP. unfold bind, get_batch.
  destruct (batches st !! b) as [bo|] eqn:Hb; [now apply Hk | exact HP].
Qed.

Lemma preserves_with_draft_input {Y : Type} (P : Store -> Prop) (s : sid)
    (k : DraftInputObj -> M Store Y) :
  (forall d st, specs st !! s = Some (DraftInput d) -> P st -> P (snd (k d st))) ->
  preserves P (bind (get_draft_input s) k).
Proof.
  intros Hk st HP. unfold bind, get_draft_input.
  destruct (specs st !! s) as [[d|]|] eqn:Hs; [now apply Hk | exact HP | exact HP].
Qed.

(** *** Whatever a property keeps under the actions on a batch, it keeps
    under the routines run on that batch. *)

Section Stable.
Variable X : Externals.
Variable self : Worker.
Variable b : bid.
Variable P : Store -> Prop.
Hypothesis P_action : forall a, preserves P (do_action b a).
Hypothesis P_plain : forall s g, plain_update g -> preserves P (update_spec s g).

Lemma preserves_do_actions (acts : list Action) : preserves P (do_actions b acts).
Proof.
  induction acts as [|a acts IH]; simpl; [apply preserves_ret|].
  apply preserves_bind; [apply P_action | intros _; exact IH].
Qed.

Lemma preserves_call {R : Type} (f : Routine R) : preserves P (call b f).
Proof.
  unfold call. apply preserves_bind; [apply preserves_get|]. intros st.
  destruct (f st) as [acts r].
  apply preserves_bind; [apply preserves_do_actions|]. intros _.
  apply preserves_lift.
Qed.

Lemma preserves_update_batch_spec (g : DraftInputObj -> DraftInputObj) :
  plain_update g -> preserves P (update_batch_spec b g).
Proof.
  intros Hg. unfold update_batch_spec.
  apply preserves_bind; [apply preserves_get_batch|]. intros bo.
  apply preserves_bind; [apply preserves_get_draft_input|]. intros _.
  now apply P_plain.
Qed.

Lemma preserves_run_draft_extend : preserves P (run_draft_extend X self b).
Proof.
  assert (Hplain : forall s g,
             (forall d, accept_length (g d) = accept_length d) ->
             (forall d, verified_id (g d) = verified_id d) ->
             preserves P (update_spec s g)).
  { intros s g H1 H2. apply P_plain. intros d. auto. }
  unfold run_draft_extend.
  apply preserves_bind.
  { apply preserves_update_batch_spec. intros d; split; reflexivity. }
  intros _. apply preserves_bind.
  { apply preserves_update_batch_spec. intros d; split; reflexivity. }
  intros _. apply preserves_bind; [apply preserves_call|].
  intros _. apply preserves_bind; [apply preserves_get_batch|].
  intros bo. apply preserves_bind.
  { apply (P_action (OnBatch (SetForwardMode _))). }
  intros _. apply preserves_bind.
  { apply (P_action (OnBatch (SetReturnHiddenStates false))). }
  intros _. apply preserves_bind; [apply preserves_call|].
  intros mwb. apply preserves_bind; [apply preserves_assert|].
  intros _. apply preserves_bind; [apply preserves_call|].
  intros fb. apply preserves_bind.
  { destruct (fb_seq_lens_cpu fb); [apply preserves_ret|].
    apply preserves_bind; [apply preserves_get_batch|]. intros bo'.
    apply preserves_bind; [apply preserves_read_tensor|]. intros c.
    apply preserves_ret. }
  intros fb'. apply preserves_bind; [apply preserves_get|].
  intros st. apply preserves_bind; [|intros lo; apply preserves_lift].
  destruct (has_cuda_graph_runner_for_draft_extend self && can_run X fb' st).
  - apply preserves_bind; [apply preserves_call|]. intros lo.
    apply preserves_bind; [apply Hplain; reflexivity|]. intros _.
    apply preserves_bind; [apply Hplain; reflexivity|]. intros _.
    apply preserves_ret.
  - apply preserves_bind.
    { destruct (negb _); [apply preserves_call | apply preserves_ret]. }
    intros _. apply preserves_bind; [apply preserves_call|]. intros lo.
    apply preserves_bind; [|intros _; apply preserves_ret].
    unfold capture_for_decode. destruct (fast_topk X _ _) as [p i].
    apply preserves_bind; [apply Hplain; reflexivity|]. intros _.
    apply Hplain; reflexivity.
Qed.

End Stable.

(** *** The frame of a call *)

Lemma frame_from_refl (st : Store) : frame_from st st.
Proof. exists []. repeat split; auto. Qed.

Lemma frame_same (st0 st st1 : Store) :
  tensors st1 = tensors st -> written st1 = written st ->
  frame_from st0 st -> frame_from st0 st1.
Proof. intros Ht Hw (ws & H1 & H2 & H3). exists ws. rewrite Ht, Hw. auto. Qed.

Lemma frame_update_batch (st0 : Store) (b : bid) (f : BatchObj -> BatchObj) :
  preserves (frame_from st0) (update_batch b f).
Proof. intros st H. eapply frame_same; [| |exact H]; reflexivity. Qed.

Lemma frame_update_spec (st0 : Store) (s : sid)
    (g : DraftInputObj -> DraftInputObj) :
  preserves (frame_from st0) (update_spec s g).
Proof. intros st H. eapply frame_same; [| |exact H]; reflexivity. Qed.

Lemma frame_new_batch (st0 : Store) (o : BatchObj) :
  preserves (frame_from st0) (new_batch o).
Proof. intros st H. eapply frame_same; [| |exact H]; reflexivity. Qed.

Lemma frame_new_spec (st0 : Store) (o : SpecObj) :
  preserves (frame_from st0) (new_spec o).
Proof. intros st H. eapply frame_same; [| |exact H]; reflexivity. Qed.

Lemma frame_new_tensor (st0 : Store) (c : list Z) :
  preserves (frame_from st0) (new_tensor c).
Proof.
  intros st (ws & H1 & H2 & H3). exists ws. cbn.
  split; [assumption|]. split; [rewrite length_app; lia|].
  intros l Hl Hnot. rewrite lookup_app_l by lia. now apply H3.
Qed.

Lemma frame_write_in_place (st0 : Store) (l : loc) (f : list Z -> list Z) :
  preserves (frame_from st0) (write_in_place l f).
Proof.
  intros st (ws & H1 & H2 & H3). exists (l :: ws). cbn.
  split; [now rewrite H1|]. split; [now rewrite length_alter|].
  intros l' Hl Hnot. apply not_elem_of_cons in Hnot as [Hne Hnot].
  rewrite list_lookup_alter_ne by congruence. now apply H3.
Qed.

Lemma frame_action (st0 : Store) (b : bid) (a : Action) :
  preserves (frame_from st0) (do_action b a).
Proof.
  destruct a as [[m|v|v|c|c|f|f] | [c|c|f|f|m]]; simpl;
    unfold do_spec_action;
    repeat first
      [ apply frame_update_batch
      | apply frame_update_spec
      | apply frame_new_tensor
      | apply frame_write_in_place
      | apply preserves_get_batch
      | apply preserves_get_draft_input
      | apply preserves_bind; [|intros] ].
Qed.

(** *** A tensor no field is bound to *)

Section Isolated.
Variable cl : loc.
Variable c0 : list Z.

Lemma isolated_update_batch (b : bid) (f : BatchObj -> BatchObj) :
  (forall bo, seq_lens bo <> cl -> req_pool_indices bo <> cl ->
              seq_lens (f bo) <> cl /\ req_pool_indices (f bo) <> cl) ->
  preserves (isolated cl c0) (update_batch b f).
Proof.
  intros Hf st (H1 & H2 & H3). repeat split; cbn; try assumption.
  apply Forall_alter; [assumption|]. intros bo _ [Ha Hb]. now apply Hf.
Qed.

Lemma isolated_update_spec (s : sid) (g : DraftInputObj -> DraftInputObj) :
  (forall d, accept_length d <> cl -> verified_id d <> cl ->
             accept_length (g d) <> cl /\ verified_id (g d) <> cl) ->
  preserves (isolated cl c0) (update_spec s g).
Proof.
  intros Hg st (H1 & H2 & H3). repeat split; cbn; try assumption.
  apply Forall_alter; [assumption|].
  intros [d|] _; simpl; [|auto]. intros [Ha Hb]. now apply Hg.
Qed.

Lemma isolated_fresh (st : Store) :
  isolated cl c0 st -> length (tensors st) <> cl.
Proof. intros (H1 & _). apply lookup_lt_Some in H1. lia. Qed.

Lemma isolated_new_tensor (c : list Z) :
  preserves (isolated cl c0) (new_tensor c).
Proof.
  intros st (H1 & H2 & H3). repeat split; cbn; try assumption.
  now apply lookup_app_l_Some.
Qed.

Lemma isolated_write_in_place (l : loc) (f : list Z -> list Z) :
  l <> cl -> preserves (isolated cl c0) (write_in_place l f).
Proof.
  intros Hl st (H1 & H2 & H3). repeat split; cbn; try assumption.
  now rewrite list_lookup_alter_ne.
Qed.

Lemma isolated_batch (st : Store) (b : bid) (bo : BatchObj) :
  isolated cl c0 st -> batches st !! b = Some bo ->
  seq_lens bo <> cl /\ req_pool_indices bo <> cl.
Proof.
  intros (_ & H2 & _) Hb. rewrite Forall_lookup in H2. exact (H2 b bo Hb).
Qed.

Lemma isolated_spec (st : Store) (s : sid) (d : DraftInputObj) :
  isolated cl c0 st -> specs st !! s = Some (DraftInput d) ->
  accept_length d <> cl /\ verified_id d <> cl.
Proof.
  intros (_ & _ & H3) Hs. rewrite Forall_lookup in H3. exact (H3 s _ Hs).
Qed.

Lemma isolated_action (b : bid) (a : Action) :
  preserves (isolated cl c0) (do_action b a).
Proof.
  destruct a as [[m|v|v|c|c|f|f] | [c|c|f|f|m]]; simpl; unfold do_spec_action.
  - apply isolated_update_batch. auto.
  - apply isolated_update_batch. auto.
  - apply isolated_update_batch. auto.
  - intros st H. unfold bind. cbn.
    refine (isolated_update_batch b (with_seq_lens (length (tensors st)))
              _ (snd (new_tensor c st)) (isolated_new_tensor c st H)).
    intros bo _ Hr. cbn. split; [now apply isolated_fresh | assumption].
  - intros st H. unfold bind. cbn.
    refine (isolated_update_batch b
              (with_req_pool_indices (length (tensors st)))
              _ (snd (new_tensor c st)) (isolated_new_tensor c st H)).
    intros bo Hs _. cbn. split; [assumption | now apply isolated_fresh].
  - apply preserves_with_batch. intros bo st Hb H.
    refine (isolated_write_in_place _ f _ st H).
    now apply (isolated_batch st b bo).
  - apply preserves_with_batch. intros bo st Hb H.
    refine (isolated_write_in_place _ f _ st H).
    now apply (isolated_batch st b bo).
  - apply preserves_bind; [apply preserves_get_batch|]. intros bo.
    intros st H. unfold bind. cbn.
    refine (isolated_update_spec (spec_info bo)
              (with_accept_length (length (tensors st)))
              _ (snd (new_tensor c st)) (isolated_new_tensor c st H)).
    intros d _ Hv. cbn. split; [now apply isolated_fresh | assumption].
  - apply preserves_bind; [apply preserves_get_batch|]. intros bo.
    intros st H. unfold bind. cbn.
    refine (isolated_update_spec (spec_info bo)
              (with_verified_id (length (tensors st)))
              _ (snd (new_tensor c st)) (isolated_new_tensor c st H)).
    intros d Ha _. cbn. split; [assumption | now apply isolated_fresh].
  - apply preserves_bind; [apply preserves_get_batch|]. intros bo.
    apply preserves_with_draft_input. intros d st Hd H.
    refine (isolated_write_in_place _ f _ st H).
    now apply (isolated_spec st (spec_info bo) d).
  - apply preserves_bind; [apply preserves_get_batch|]. intros bo.
    apply preserves_with_draft_input. intros d st Hd H.
    refine (isolated_write_in_place _ f _ st H).
    now apply (isolated_spec st (spec_info bo) d).
  - apply preserves_bind; [apply preserves_get_batch|]. intros bo.
    apply isolated_update_spec. auto.
Qed.

Lemma isolated_plain (s : sid) (g : DraftInputObj -> DraftInputObj) :
  plain_update g -> preserves (isolated cl c0) (update_spec s g).
Proof.
  intros Hg. apply isolated_update_spec. intros d Ha Hv.
  destruct (Hg d) as [-> ->]. auto.
Qed.

End Isolated.

(** *** The caller's batch while a sub-batch is worked on *)

Section Untouched.
Variable b0 : bid.
Variable bo0 : BatchObj.
Variable s0 : sid.
Variable a0 : loc.
Variable b' : bid.
Hypothesis Hne : b' <> b0.

Abbreviation CU := (caller_untouched b0 bo0 s0 a0 b').

Lemma cu_update_batch (f : BatchObj -> BatchObj) :
  (forall bo, spec_info (f bo) = spec_info bo) ->
  preserves CU (update_batch b' f).
Proof.
  intros Hf st (H1 & H2 & H3). split; [|split]; cbn.
  - now rewrite list_lookup_alter_ne.
  - exact H2.
  - intros bo. rewrite list_lookup_alter_eq.
    intros (bo1 & E & ->)%fmap_Some. rewrite Hf. now apply H3.
Qed.

Lemma cu_update_spec_other (s : sid) (g : DraftInputObj -> DraftInputObj) :
  s <> s0 -> preserves CU (update_spec s g).
Proof.
  intros Hs st (H1 & H2 & H3). split; [|split]; cbn; try assumption.
  now rewrite list_lookup_alter_ne.
Qed.

Lemma cu_plain (s : sid) (g : DraftInputObj -> DraftInputObj) :
  plain_update g -> preserves CU (update_spec s g).
Proof.
  intros Hg st H. destruct (decide (s = s0)) as [->|Hs];
    [|now apply cu_update_spec_other].
  destruct H as (H1 & (d & Hd & Ha) & H3). split; [|split]; simpl; try assumption.
  exists (g d). rewrite list_lookup_alter_eq.
  split; [apply fmap_Some; exists (DraftInput d); split; [exact Hd | reflexivity]|].
  destruct (Hg d) as [-> _]. exact Ha.
Qed.

Lemma cu_same (st st1 : Store) :
  batches st1 = batches st -> specs st1 = specs st -> CU st -> CU st1.
Proof. intros Hb Hs H. unfold caller_untouched. now rewrite Hb, Hs. Qed.

Lemma cu_new_tensor (c : list Z) : preserves CU (new_tensor c).
Proof. intros st H. eapply cu_same; [| |exact H]; reflexivity. Qed.

Lemma cu_write_in_place (l : loc) (f : list Z -> list Z) :
  preserves CU (write_in_place l f).
Proof. intros st H. eapply cu_same; [| |exact H]; reflexivity. Qed.

Lemma cu_spec_of (st : Store) (bo : BatchObj) :
  CU st -> batches st !! b' = Some bo -> spec_info bo <> s0.
Proof. intros (_ & _ & H3). apply H3. Qed.

Lemma cu_action (a : Action) : preserves CU (do_action b' a).
Proof.
  destruct a as [[m|v|v|c|c|f|f] | [c|c|f|f|m]]; simpl; unfold do_spec_action.
  - apply cu_update_batch. reflexivity.
  - apply cu_update_batch. reflexivity.
  - apply cu_update_batch. reflexivity.
  - apply preserves_bind; [apply cu_new_tensor|]. intros l.
    apply cu_update_batch. reflexivity.
  - apply preserves_bind; [apply cu_new_tensor|]. intros l.
    apply cu_update_batch. reflexivity.
  - apply preserves_bind; [apply preserves_get_batch|]. intros bo.
    apply cu_write_in_place.
  - apply preserves_bind; [apply preserves_get_batch|]. intros bo.
    apply cu_write_in_place.
  - apply preserves_with_batch. intros bo st Hb H.
    pose proof (cu_spec_of st bo H Hb) as Hs. unfold bind. cbn.
    refine (cu_update_spec_other (spec_info bo) _ Hs
              (snd (new_tensor c st)) (cu_new_tensor c st H)).
  - apply preserves_with_batch. intros bo st Hb H.
    pose proof (cu_spec_of st bo H Hb) as Hs. unfold bind. cbn.
    refine (cu_update_spec_other (spec_info bo) _ Hs
              (snd (new_tensor c st)) (cu_new_tensor c st H)).
  - apply preserves_bind; [apply preserves_get_batch|]. intros bo.
    apply preserves_bind; [apply preserves_get_draft_input|]. intros d.
    apply cu_write_in_place.
  - apply preserves_bind; [apply preserves_get_batch|]. intros bo.
    apply preserves_bind; [apply preserves_get_draft_input|]. intros d.
    apply cu_write_in_place.
  - apply preserves_with_batch. intros bo st Hb H.
    pose proof (cu_spec_of st bo H Hb) as Hs.
    now apply cu_update_spec_other.
Qed.

Lemma cu_restore_backup (idle : bool) (sl rpi al : loc) (rl : bool) :
  preserves CU (restore_backup b' idle sl rpi al rl).
Proof.
  unfold restore_backup.
  apply preserves_bind; [apply cu_update_batch; reflexivity|]. intros _.
  apply preserves_bind; [apply cu_update_batch; reflexivity|]. intros _.
  apply preserves_bind; [apply cu_update_batch; reflexivity|]. intros _.
  apply preserves_bind; [|intros _; apply cu_update_batch; reflexivity].
  unfold update_batch_spec.
  apply preserves_with_batch. intros bo st Hb H.
  pose proof (cu_spec_of st bo H Hb) as Hs.
  refine (preserves_bind CU _ _ (preserves_get_draft_input CU _)
            (fun _ => cu_update_spec_other _ _ Hs) st H).
Qed.

End Untouched.

(** *** The draft input a batch is bound to *)

Section Bound.
Variable b : bid.
Variable s : sid.

Lemma bound_same (st st1 : Store) :
  batches st1 = batches st -> specs st1 = specs st ->
  bound_to b s st -> bound_to b s st1.
Proof. intros Hb Hs H. unfold bound_to. now rewrite Hb, Hs. Qed.

Lemma bound_update_batch (b1 : bid) (f : BatchObj -> BatchObj) :
  (forall bo, spec_info (f bo) = spec_info bo) ->
  preserves (bound_to b s) (update_batch b1 f).
Proof.
  intros Hf st [(bo & Hb & Hs) H2]. split; [|exact H2]. simpl.
  destruct (decide (b1 = b)) as [->|Hne].
  - exists (f bo). rewrite list_lookup_alter_eq, Hb, Hf. auto.
  - exists bo. rewrite list_lookup_alter_ne by assumption. auto.
Qed.

Lemma bound_update_spec (s1 : sid) (g : DraftInputObj -> DraftInputObj) :
  preserves (bound_to b s) (update_spec s1 g).
Proof.
  intros st [H1 (d & Hd)]. split; [exact H1|]. simpl.
  destruct (decide (s1 = s)) as [->|Hne].
  - exists (g d). now rewrite list_lookup_alter_eq, Hd.
  - exists d. now rewrite list_lookup_alter_ne.
Qed.

Lemma bound_new_tensor (c : list Z) : preserves (bound_to b s) (new_tensor c).
Proof. intros st H. eapply bound_same; [| |exact H]; reflexivity. Qed.

Lemma bound_write_in_place (l : loc) (f : list Z -> list Z) :
  preserves (bound_to b s) (write_in_place l f).
Proof. intros st H. eapply bound_same; [| |exact H]; reflexivity. Qed.

Lemma bound_action (b1 : bid) (a : Action) :
  preserves (bound_to b s) (do_action b1 a).
Proof.
  destruct a as [[m|v|v|c|c|f|f] | [c|c|f|f|m]]; simpl;
    unfold do_spec_action;
    repeat first
      [ apply bound_update_batch; reflexivity
      | apply bound_update_spec
      | apply bound_new_tensor
      | apply bound_write_in_place
      | apply preserves_get_batch
      | apply preserves_get_draft_input
      | apply preserves_bind; [|intros] ].
Qed.

End Bound.

(** *** Putting the backups back *)

Lemma restore_backup_ok (b : bid) (idle : bool) (sl rpi al : loc) (rl : bool)
    (st : Store) (bo : BatchObj) (d : DraftInputObj) :
  batches st !! b = Some bo ->
  specs st !! spec_info bo = Some (DraftInput d) ->
  exists st' bo',
    restore_backup b idle sl rpi al rl st = (Ok tt, st') /\
    tensors st' = tensors st /\ written st' = written st /\
    batches st' !! b = Some bo' /\
    seq_lens bo' = sl /\ req_pool_indices bo' = rpi /\
    return_logprob bo' = rl /\ spec_info bo' = spec_info bo /\
    specs st' !! spec_info bo = Some (DraftInput (with_accept_length al d)).
Proof.
  intros Hb Hd.
  unfold restore_backup, update_batch_spec, update_batch, update_spec, modify,
    get_batch, get_draft_input, bind. cbn.
  rewrite !list_lookup_alter_eq, Hb. cbn. rewrite Hd.
  eexists _, _. split; [reflexivity|]. cbn.
  rewrite !list_lookup_alter_eq, Hb, Hd. cbn.
  repeat split; reflexivity.
Qed.

Lemma frame_restore_backup (st0 : Store) (b : bid) (idle : bool)
    (sl rpi al : loc) (rl : bool) :
  preserves (frame_from st0) (restore_backup b idle sl rpi al rl).
Proof.
  unfold restore_backup, update_batch_spec.
  repeat first
    [ apply frame_update_batch
    | apply frame_update_spec
    | apply preserves_get_batch
    | apply preserves_get_draft_input
    | apply preserves_bind; [|intros] ].
Qed.

(** *** Folding the batch into an idle sub-batch *)

Lemma preserves_call_batch {R : Type} (P : Store -> Prop) (b : bid)
    (f : BatchRoutine R) :
  (forall a, preserves P (do_batch_action b a)) -> preserves P (call_batch b f).
Proof.
  intros Ha. unfold call_batch, call.
  apply preserves_bind; [apply preserves_get|]. intros st.
  destruct (f st) as [acts r].
  apply preserves_bind; [|intros _; apply preserves_lift].
  induction acts as [|a acts IH]; simpl; [apply preserves_ret|].
  apply preserves_bind; [apply Ha | intros _; exact IH].
Qed.

Lemma kept_batch_action (b0 b' : bid) (bo0 : BatchObj) (sp : list SpecObj)
    (a : BatchAction) :
  b' <> b0 ->
  preserves (fun st => batches st !! b0 = Some bo0 /\ specs st = sp)
            (do_batch_action b' a).
Proof.
  intros Hne.
  assert (Hu : forall f,
             preserves (fun st => batches st !! b0 = Some bo0 /\ specs st = sp)
                       (update_batch b' f)).
  { intros f st [H1 H2]. split; [|exact H2]. simpl.
    now rewrite list_lookup_alter_ne. }
  assert (Hn : forall c,
             preserves (fun st => batches st !! b0 = Some bo0 /\ specs st = sp)
                       (new_tensor c)).
  { intros c st H. exact H. }
  assert (Hw : forall l f,
             preserves (fun st => batches st !! b0 = Some bo0 /\ specs st = sp)
                       (write_in_place l f)).
  { intros l f st H. exact H. }
  destruct a as [m|v|v|c|c|f|f]; simpl;
    repeat first
      [ apply Hu | apply Hn | apply Hw
      | apply preserves_get_batch
      | apply preserves_bind; [|intros] ].
Qed.

Lemma frame_make_idle_sub_batch (X : Externals) (self : Worker) (st0 : Store)
    (b : bid) :
  preserves (frame_from st0) (make_idle_sub_batch X self b).
Proof.
  unfold make_idle_sub_batch.
  apply preserves_bind; [apply preserves_get|]. intros st.
  apply preserves_bind; [apply frame_new_batch|]. intros b'.
  apply preserves_bind.
  { apply preserves_call. intros a. apply frame_action. }
  intros _.
  apply preserves_bind; [apply frame_new_tensor|]. intros al.
  apply preserves_bind; [apply frame_new_tensor|]. intros vi.
  apply preserves_bind; [apply frame_new_spec|]. intros s.
  apply preserves_bind; [apply frame_update_batch|]. intros _.
  apply preserves_ret.
Qed.

Lemma make_idle_sub_batch_ok (X : Externals) (self : Worker) (b b' : bid)
    (st st' : Store) (bo : BatchObj) (d : DraftInputObj) :
  batches st !! b = Some bo ->
  specs st !! spec_info bo = Some (DraftInput d) ->
  make_idle_sub_batch X self b st = (Ok b', st') ->
  b' <> b /\ caller_untouched b bo (spec_info bo) (accept_length d) b' st'.
Proof.
  intros Hb Hd H. unfold make_idle_sub_batch in H. rewrite bind_get in H.
  apply bind_ok in H as (b1 & s1 & H1 & H).
  injection H1 as <- <-.
  assert (Hne : length (batches st) <> b).
  { apply lookup_lt_Some in Hb. lia. }
  apply bind_ok in H as ([] & s2 & H2 & H).
  assert (Hk : batches s2 !! b = Some bo /\ specs s2 = specs st).
  { replace s2 with (snd (call_batch (length (batches st)) (prepare_for_idle X)
                            {| tensors := tensors st;
                               batches := batches st ++ [copy_fields X st b];
                               specs := specs st; written := written st |}))
      by (rewrite H2; reflexivity).
    apply (preserves_call_batch
             (fun s => batches s !! b = Some bo /\ specs s = specs st)).
    - intros a. now apply kept_batch_action.
    - split; [|reflexivity]. simpl. now apply lookup_app_l_Some. }
  destruct Hk as [Hb2 Hs2].
  unfold bind, new_tensor, new_spec, update_batch, modify, ret in H.
  cbn in H. injection H as <- <-.
  split; [exact Hne|]. split; [|split]; simpl.
  - now rewrite list_lookup_alter_ne.
  - exists d. rewrite Hs2. split; [now apply lookup_app_l_Some | reflexivity].
  - intros bo'. rewrite list_lookup_alter_eq.
    intros (bo1 & _ & ->)%fmap_Some. simpl. rewrite Hs2.
    apply lookup_lt_Some in Hd. lia.
Qed.

(** *** The whole routine *)

Lemma wf_batch (st : Store) (b : bid) (bo : BatchObj) :
  store_wf st -> batches st !! b = Some bo -> batch_wf st bo.
Proof. intros [H _] Hb. rewrite Forall_lookup in H. exact (H b bo Hb). Qed.

Lemma wf_draft_input (st : Store) (s : sid) (d : DraftInputObj) :
  store_wf st -> specs st !! s = Some (DraftInput d) ->
  (accept_length d < length (tensors st))%nat /\
  (verified_id d < length (tensors st))%nat.
Proof. intros [_ H] Hs. rewrite Forall_lookup in H. exact (H s _ Hs). Qed.

Lemma isolated_clone (st : Store) (c : list Z) :
  store_wf st ->
  isolated (length (tensors st)) c
    {| tensors := tensors st ++ [c]; batches := batches st;
       specs := specs st; written := written st |}.
Proof.
  intros [Hb Hs]. split; [|split]; simpl.
  - now apply list_lookup_middle.
  - eapply Forall_impl; [exact Hb|]. intros bo (H1 & H2 & _). lia.
  - eapply Forall_impl; [exact Hs|]. intros [d|]; simpl; [lia | auto].
Qed.

Lemma run_to (X : Type) (m : M Store X) (st st1 : Store) (r : Result X) :
  m st = (r, st1) -> st1 = snd (m st).
Proof. intros ->. reflexivity. Qed.

Lemma forward_draft_extend_after_decode_bindings
    (X : Externals) (self : Worker) (b : bid) (st st' : Store) :
  store_wf st ->
  forward_draft_extend_after_decode X self b st = (Ok tt, st') ->
  exists bo di bo' di' c0,
    batches st !! b = Some bo /\
    specs st !! spec_info bo = Some (DraftInput di) /\
    tensors st !! seq_lens bo = Some c0 /\
    batches st' !! b = Some bo' /\
    specs st' !! spec_info bo' = Some (DraftInput di') /\
    frame_from st st' /\
    return_logprob bo' = return_logprob bo /\
    req_pool_indices bo' = req_pool_indices bo /\
    accept_length di' = accept_length di /\
    (if folds_into_idle_sub_batch st b then bo' = bo
     else tensors st' !! seq_lens bo' = Some c0).
Proof.
  intros Hwf H. unfold forward_draft_extend_after_decode in H.
  apply bind_ok in H as (bo & s1 & Hgb & H).
  apply get_batch_ok in Hgb as [-> Hb]. rewrite bind_get in H.
  apply bind_ok in H as ([] & s1 & Has & H).
  destruct (specs st !! spec_info bo) as [[d0|]|] eqn:Hs;
    try discriminate Has.
  injection Has as <-.
  apply bind_ok in H as (cl & s1 & Hcl & H).
  unfold clone in Hcl. apply bind_ok in Hcl as (c0 & s2 & Hr & Hn).
  apply read_tensor_ok in Hr as [-> Hc0]. injection Hn as <- <-.
  set (st1 := {| tensors := tensors st ++ [c0]; batches := batches st;
                 specs := specs st; written := written st |}) in *.
  apply bind_ok in H as (di & s2 & Hgd & H).
  apply get_draft_input_ok in Hgd as [-> Hdi].
  assert (d0 = di) as -> by (simpl in Hdi; congruence). clear Hdi.
  apply bind_ok in H as (b' & s2 & Hsel & H).
  apply bind_ok in H as ([] & s3 & Hrun & Hres).
  apply run_to in Hrun.
  destruct (wf_draft_input st _ di Hwf Hs) as [Hal Hvi].
  assert (Hfr1 : frame_from st st1) by (apply (frame_new_tensor st c0 st), frame_from_refl).
  assert (Hfold : folds_into_idle_sub_batch st b
                  = negb (is_idle (forward_mode bo))
                    && match tensors st1 !! verified_id di with
                       | Some vid => Nat.eqb (length vid) 0
                       | None => false
                       end).
  { unfold folds_into_idle_sub_batch, batch_of, draft_input_of.
    rewrite Hb, Hs. simpl. now rewrite lookup_app_l by assumption. }
  exists bo, di.
  assert (Hplain : b' = b /\ s2 = st1 /\ folds_into_idle_sub_batch st b = false
                   \/ make_idle_sub_batch X self b st1 = (Ok b', s2)
                      /\ folds_into_idle_sub_batch st b = true).
  { rewrite Hfold.
    destruct (negb (is_idle (forward_mode bo))); simpl in *.
    - apply bind_ok in Hsel as (vid & s4 & Hv & Hsel).
      apply read_tensor_ok in Hv as [-> Hv]. simpl in Hv. rewrite Hv.
      destruct (Nat.eqb (length vid) 0); [right; auto|].
      injection Hsel as <- <-. left; auto.
    - injection Hsel as <- <-. left; auto. }
  destruct Hplain as [(-> & -> & ->) | [Hmk ->]].
  - (* the batch itself is worked on *)
    assert (Hfr3 : frame_from st s3).
    { rewrite Hrun. apply preserves_run_draft_extend; [| |exact Hfr1].
      - intros a. apply frame_action.
      - intros s g _. apply frame_update_spec. }
    assert (Hiso3 : isolated (length (tensors st)) c0 s3).
    { rewrite Hrun. apply preserves_run_draft_extend.
      - intros a. apply isolated_action.
      - intros s g. apply isolated_plain.
      - now apply isolated_clone. }
    assert (Hbd3 : bound_to b (spec_info bo) s3).
    { rewrite Hrun. apply preserves_run_draft_extend.
      - intros a. apply bound_action.
      - intros s g _. apply bound_update_spec.
      - split; [exists bo | exists di]; auto. }
    destruct Hbd3 as [(bo3 & Hb3 & Hs3) (d3 & Hd3)]. rewrite <- Hs3 in Hd3.
    destruct (restore_backup_ok b (is_idle (forward_mode bo))
                (length (tensors st)) (req_pool_indices bo) (accept_length di)
                (return_logprob bo) s3 bo3 d3 Hb3 Hd3)
      as (st'' & bo' & Hrb & Ht & Hw & Hb' & E1 & E2 & E3 & E4 & Hd').
    rewrite Hres in Hrb. injection Hrb as <-.
    exists bo', (with_accept_length (accept_length di) d3), c0.
    split; [exact Hb|]. split; [exact Hs|]. split; [exact Hc0|].
    split; [exact Hb'|]. split; [now rewrite E4|].
    split; [exact (frame_same st s3 st' Ht Hw Hfr3)|].
    split; [exact E3|]. split; [exact E2|]. split; [reflexivity|].
    rewrite E1, Ht. apply Hiso3.
  - (* an idle sub-batch is worked on *)
    destruct (make_idle_sub_batch_ok X self b b' st1 s2 bo di Hb Hs Hmk)
      as [Hne Hcu].
    assert (Hfr2 : frame_from st s2).
    { rewrite (run_to _ _ _ _ _ Hmk). now apply frame_make_idle_sub_batch. }
    assert (Hfr3 : frame_from st s3).
    { rewrite Hrun. apply preserves_run_draft_extend; [| |exact Hfr2].
      - intros a. apply frame_action.
      - intros s g _. apply frame_update_spec. }
    assert (Hcu3 : caller_untouched b bo (spec_info bo) (accept_length di) b' s3).
    { rewrite Hrun. apply preserves_run_draft_extend; [| |exact Hcu].
      - intros a. now apply cu_action.
      - intros s g. now apply cu_plain. }
    apply run_to in Hres.
    assert (Hfr' : frame_from st st').
    { rewrite Hres. now apply frame_restore_backup. }
    assert (Hcu' : caller_untouched b bo (spec_info bo) (accept_length di) b' st').
    { rewrite Hres. now apply cu_restore_backup. }
    destruct Hcu' as (Hb' & (d' & Hd' & Ha') & _).
    exists bo, d', c0. repeat split; assumption.
Qed.

End StoreFacts.



